(** * LlamaIndexTS adapters: Gemini provider, Azure Cosmos index store,
      context-aware agent

    A shallow embedding of three adapter modules and the properties their
    specification states about them:

    - [packages/providers/google/src/base.ts]: the Gemini session, the
      session store and the [Gemini] tool-call LLM;
    - [packages/providers/storage/azure/src/indexStore/AzureCosmosMongovCoreIndexStore.ts]:
      the two factories of the index store;
    - the context-aware agent mixin ([withContextAwareness]).

    JavaScript objects that the code mutates and shares (session options,
    chat messages) live in an explicit heap of objects addressed by
    references; exceptions are an explicit [Throw] outcome. *)

From stdpp Require Import base strings list gmap.

Open Scope string_scope.

(** ** JavaScript values shared by the modules *)

Module Js.

(** The outcome of a call that may throw. *)
Inductive result (A : Type) : Type :=
| Ok (a : A)
| Throw (message : string).
Arguments Ok {A} a.
Arguments Throw {A} message.

Definition is_ok {A} (r : result A) : bool :=
  match r with Ok _ => true | Throw _ => false end.

(** [!s] for [s : string | undefined]: absent and empty are both falsy. *)
Definition falsy (s : option string) : bool :=
  match s with
  | None => true
  | Some k => if decide (k = "") then true else false
  end.

(** [a ?? b] on an optional string. *)
Definition nullish_or (s : option string) (d : string) : string :=
  match s with Some k => k | None => d end.

(** [xs?.length] used as a condition: true for a present, non-empty array. *)
Definition has_length {A} (xs : option (list A)) : bool :=
  match xs with
  | Some (_ :: _) => true
  | _ => false
  end.

(** [Array.prototype.join]. *)
Fixpoint join (sep : string) (xs : list string) : string :=
  match xs with
  | [] => ""
  | [x] => x
  | x :: rest => x ++ sep ++ join sep rest
  end.

End Js.

(** ** The Azure Cosmos (Mongo vCore) index store *)

Module IndexStore.

Definition DEFAULT_DATABASE : string := "IndexStoreDB".
Definition DEFAULT_COLLECTION : string := "IndexStoreCollection".

(** [new MongoClient(url, options)]: the connection string and the
    options the driver was given. *)
Record MongoClient := {
  url : string;
  appName : option string;
}.

(** The arguments [AzureCosmosVCoreKVStore] is constructed with. *)
Record AzureCosmosVCoreKVStore := {
  mongoClient : MongoClient;
  dbName : string;
  collectionName : string;
}.

(** [AzureCosmosVCoreIndexStore]: the key-value store and the namespace
    handed to the [KVIndexStore] constructor. *)
Record AzureCosmosVCoreIndexStore := {
  azureCosmosVCoreKVStore : AzureCosmosVCoreKVStore;
  namespace : option string;
}.

(** A default parameter value applies when the argument is [undefined]. *)
Definition default_arg (a : option string) (d : string) : string :=
  match a with Some v => v | None => d end.

Definition fromMongoClient (client : MongoClient)
    (dbName_arg collectionName_arg : option string)
    : AzureCosmosVCoreIndexStore :=
  let dbName := default_arg dbName_arg DEFAULT_DATABASE in
  let collectionName := default_arg collectionName_arg DEFAULT_COLLECTION in
  let kv := {| mongoClient := client;
               dbName := dbName;
               collectionName := collectionName |} in
  let namespace := dbName ++ "." ++ collectionName in
  {| azureCosmosVCoreKVStore := kv; namespace := Some namespace |}.

Definition fromConnectionString (connectionString : string)
    (dbName_arg collectionName_arg : option string)
    : AzureCosmosVCoreIndexStore :=
  let dbName := default_arg dbName_arg DEFAULT_DATABASE in
  let collectionName := default_arg collectionName_arg DEFAULT_COLLECTION in
  let client := {| url := connectionString;
                   appName := Some "LLAMAINDEX_JS" |} in
  {| azureCosmosVCoreKVStore :=
       {| mongoClient := client;
          dbName := dbName;
          collectionName := collectionName |};
     namespace := Some (dbName ++ "." ++ collectionName) |}.

End IndexStore.

(** ** The Gemini models *)

Module Models.

(** The members of the [GEMINI_MODEL] enum: [GEMINI_MODEL_INFO_MAP] is a
    [Record<GEMINI_MODEL, _>], so its sixteen keys are the enum's
    members. *)
Inductive GEMINI_MODEL : Type :=
| GEMINI_PRO
| GEMINI_PRO_VISION
| GEMINI_PRO_LATEST
| GEMINI_PRO_FLASH_LATEST
| GEMINI_PRO_1_5_PRO_PREVIEW
| GEMINI_PRO_1_5_FLASH_PREVIEW
| GEMINI_PRO_1_5
| GEMINI_PRO_1_5_FLASH
| GEMINI_PRO_1_5_LATEST
| GEMINI_PRO_1_5_FLASH_LATEST
| GEMINI_2_0_FLASH_EXPERIMENTAL
| GEMINI_2_0_FLASH
| GEMINI_2_0_FLASH_LITE_PREVIEW
| GEMINI_2_0_FLASH_LITE
| GEMINI_2_0_FLASH_THINKING_EXP
| GEMINI_2_0_PRO_EXPERIMENTAL.

#[global] Instance GEMINI_MODEL_eq_dec : EqDecision GEMINI_MODEL.
Proof. solve_decision. Defined.

Record GeminiModelInfo := { contextWindow : N }.

(** The entries of the model-info object, in source order. *)
Definition GEMINI_MODEL_INFO_MAP : list (GEMINI_MODEL * GeminiModelInfo) :=
  [ (GEMINI_PRO, {| contextWindow := 30720 |});
    (GEMINI_PRO_VISION, {| contextWindow := 12288 |});
    (GEMINI_PRO_LATEST, {| contextWindow := 10 ^ 6 |});
    (GEMINI_PRO_FLASH_LATEST, {| contextWindow := 10 ^ 6 |});
    (GEMINI_PRO_1_5_PRO_PREVIEW, {| contextWindow := 10 ^ 6 |});
    (GEMINI_PRO_1_5_FLASH_PREVIEW, {| contextWindow := 10 ^ 6 |});
    (GEMINI_PRO_1_5, {| contextWindow := 2 * 10 ^ 6 |});
    (GEMINI_PRO_1_5_FLASH, {| contextWindow := 10 ^ 6 |});
    (GEMINI_PRO_1_5_LATEST, {| contextWindow := 2 * 10 ^ 6 |});
    (GEMINI_PRO_1_5_FLASH_LATEST, {| contextWindow := 10 ^ 6 |});
    (GEMINI_2_0_FLASH_EXPERIMENTAL, {| contextWindow := 10 ^ 6 |});
    (GEMINI_2_0_FLASH, {| contextWindow := 10 ^ 6 |});
    (GEMINI_2_0_FLASH_LITE_PREVIEW, {| contextWindow := 10 ^ 6 |});
    (GEMINI_2_0_FLASH_LITE, {| contextWindow := 10 ^ 6 |});
    (GEMINI_2_0_FLASH_THINKING_EXP, {| contextWindow := 32768 |});
    (GEMINI_2_0_PRO_EXPERIMENTAL, {| contextWindow := 2 * 10 ^ 6 |}) ]%N.

(** [GEMINI_MODEL_INFO_MAP[model]]. *)
Definition model_info (model : GEMINI_MODEL) : option GeminiModelInfo :=
  snd <$> List.find (fun e => bool_decide (fst e = model)) GEMINI_MODEL_INFO_MAP.

Definition SUPPORT_TOOL_CALL_MODELS : list GEMINI_MODEL :=
  [ GEMINI_PRO;
    GEMINI_PRO_VISION;
    GEMINI_PRO_1_5_PRO_PREVIEW;
    GEMINI_PRO_1_5_FLASH_PREVIEW;
    GEMINI_PRO_1_5;
    GEMINI_PRO_1_5_FLASH;
    GEMINI_PRO_LATEST;
    GEMINI_PRO_FLASH_LATEST;
    GEMINI_PRO_1_5_LATEST;
    GEMINI_PRO_1_5_FLASH_LATEST;
    GEMINI_2_0_FLASH_EXPERIMENTAL;
    GEMINI_2_0_FLASH;
    GEMINI_2_0_PRO_EXPERIMENTAL ].

(** [Array.prototype.includes]. *)
Fixpoint includes (xs : list GEMINI_MODEL) (x : GEMINI_MODEL) : bool :=
  match xs with
  | [] => false
  | y :: rest => if decide (y = x) then true else includes rest x
  end.

(** The getter [Gemini.supportToolCall], as a function of [this.model]. *)
Definition supportToolCall (model : GEMINI_MODEL) : bool :=
  includes SUPPORT_TOOL_CALL_MODELS model.

End Models.

(** ** The Gemini session and the session store *)

Module Session.
Import Js.

Inductive GEMINI_BACKENDS : Type := GOOGLE | VERTEX.

#[global] Instance GEMINI_BACKENDS_eq_dec : EqDecision GEMINI_BACKENDS.
Proof. solve_decision. Defined.

(** [GeminiSessionOptions]: the backend tag and the optional [apiKey] of
    the Google variant (the fields of the Vertex variant are read by no
    code here). *)
Record GeminiSessionOptions := {
  backend : GEMINI_BACKENDS;
  apiKey : option string;
}.

#[global] Instance GeminiSessionOptions_inhabited : Inhabited GeminiSessionOptions :=
  populate {| backend := GOOGLE; apiKey := None |}.

(** The vendor client [new GoogleGenerativeAI(apiKey)]. *)
Record GoogleGenerativeAI := { client_apiKey : string }.

(** An object behind an [IGeminiSession] reference: a [GeminiSession] of
    this module, holding its vendor client, or a session of another
    implementation of the interface. *)
Inductive SessionObject : Type :=
| GeminiSessionObject (gemini : GoogleGenerativeAI)
| OtherSessionObject (implementation : string).

(** Objects are addressed by their position in the heap they were
    allocated in. *)
Definition ref := nat.

(** An entry of [GeminiSessionStore.sessions]: references to the session
    and to the options object it was stored with. *)
Record StoreEntry := {
  session : ref;
  options : ref;
}.

Record World := {
  GOOGLE_API_KEY : option string;            (* getEnv("GOOGLE_API_KEY") *)
  options_heap : list GeminiSessionOptions;  (* the options objects *)
  session_heap : list SessionObject;         (* the session objects *)
  sessions : list StoreEntry;                (* GeminiSessionStore.sessions *)
}.

(** Reading the object behind an options reference. A reference that a
    caller holds denotes an allocated object; the default of the total
    lookup is never read for one. *)
Definition deref (w : World) (o : ref) : GeminiSessionOptions :=
  options_heap w !!! o.

(** [options.apiKey = v] on the object behind [o]. *)
Definition set_apiKey (o : ref) (v : option string) (w : World) : World :=
  {| GOOGLE_API_KEY := GOOGLE_API_KEY w;
     options_heap :=
       <[o := {| backend := backend (deref w o); apiKey := v |}]> (options_heap w);
     session_heap := session_heap w;
     sessions := sessions w |}.

(** Allocation of a new [GeminiSession] object. *)
Definition alloc_session (s : SessionObject) (w : World) : ref * World :=
  (length (session_heap w),
   {| GOOGLE_API_KEY := GOOGLE_API_KEY w;
      options_heap := options_heap w;
      session_heap := session_heap w ++ [s];
      sessions := sessions w |}).

(** Allocation of a new options object (an object literal). *)
Definition alloc_options (v : GeminiSessionOptions) (w : World) : ref * World :=
  (length (options_heap w),
   {| GOOGLE_API_KEY := GOOGLE_API_KEY w;
      options_heap := options_heap w ++ [v];
      session_heap := session_heap w;
      sessions := sessions w |}).

(** [this.sessions.push(e)]. *)
Definition push (e : StoreEntry) (w : World) : World :=
  {| GOOGLE_API_KEY := GOOGLE_API_KEY w;
     options_heap := options_heap w;
     session_heap := session_heap w;
     sessions := sessions w ++ [e] |}.

(** [new GeminiSession(options)]: the options object is given the key of
    the environment when it has none ([!options.apiKey] holds for an
    absent and for an empty key); without a key after that the constructor
    throws, and else it builds the vendor client with the key. *)
Definition GeminiSession_new (o : ref) (w : World) : result ref * World :=
  let w1 :=
    if falsy (apiKey (deref w o))
    then set_apiKey o (GOOGLE_API_KEY w) w
    else w in
  match apiKey (deref w1 o) with
  | None => (Throw "Set Google API Key in GOOGLE_API_KEY env variable", w1)
  | Some k =>
      if decide (k = "")
      then (Throw "Set Google API Key in GOOGLE_API_KEY env variable", w1)
      else
        let '(s, w2) :=
          alloc_session (GeminiSessionObject {| client_apiKey := k |}) w1 in
        (Ok s, w2)
  end.

(** [GeminiSessionStore.getSessionId]. *)
Definition getSessionId (options : GeminiSessionOptions) : string :=
  match backend options with
  | GOOGLE => nullish_or (apiKey options) ""
  | VERTEX => ""
  end.

(** [GeminiSessionStore.sessionMatched]. *)
Definition sessionMatched (o1 o2 : GeminiSessionOptions) : bool :=
  bool_decide (getSessionId o1 = getSessionId o2).

(** [GeminiSessionStore.get(options)]. *)
Definition get (o : ref) (w : World) : result ref * World :=
  match List.find (fun e => sessionMatched (deref w (options e)) (deref w o))
                  (sessions w) with
  | Some e => (Ok (session e), w)
  | None =>
      match backend (deref w o) with
      | VERTEX => (Throw "No Session", w)
      | GOOGLE =>
          match GeminiSession_new o w with
          | (Ok s, w') => (Ok s, push {| session := s; options := o |} w')
          | (Throw m, w') => (Throw m, w')
          end
      end
  end.

(** [GeminiSessionStore.get()]: the default argument is a new object
    [{ backend: GEMINI_BACKENDS.GOOGLE }]. *)
Definition get_default (w : World) : result ref * World :=
  let '(o, w') := alloc_options {| backend := GOOGLE; apiKey := None |} w in
  get o w'.

End Session.

(** ** The translation between the toolkit and the vendor SDK *)

Module Chat.
Import Js Models.

(** *** Computations that draw UUIDs and may throw

    The state is the number of calls of [randomUUID] made so far. *)

Definition M (A : Type) : Type := nat -> result A * nat.

Definition ret {A} (a : A) : M A := fun n => (Ok a, n).

Definition throw {A} (message : string) : M A := fun n => (Throw message, n).

Definition lift {A} (r : result A) : M A := fun n => (r, n).

Definition bind {A B} (c : M A) (k : A -> M B) : M B :=
  fun n =>
    match c n with
    | (Ok a, n') => k a n'
    | (Throw m, n') => (Throw m, n')
    end.

Notation "x <- c ;; k" := (bind c (fun x => k))
  (at level 100, c at next level, right associativity).

(** [xs.map(f)] for a callback with effects. *)
Fixpoint mapM {A B} (f : A -> M B) (xs : list A) : M (list B) :=
  match xs with
  | [] => ret []
  | x :: rest =>
      y <- f x ;;
      ys <- mapM f rest ;;
      ret (y :: ys)
  end.

(** What an async generator produced: the values it yielded and the
    exception that ended it, if one did. *)
Record Generated (A : Type) := {
  yielded : list A;
  thrown : option string;
}.
Arguments yielded {A} _.
Arguments thrown {A} _.

Definition type_error : string := "TypeError".

Section Translation.

(** Types and helpers of the vendor SDK and of the toolkit that are
    declared outside these sources. *)
Context {Args Part Content SafetySetting FunctionDeclaration BaseTool
         GeminiMessageRole MessageType ChatMessage number : Type}.

(** The result of the n-th call of [randomUUID()]. *)
Variable uuid : nat -> string.
Variable DEFAULT_SAFETY_SETTINGS : list SafetySetting.
Variable mapBaseToolToGeminiFunctionDeclaration : BaseTool -> FunctionDeclaration.
Variable ROLES_FROM_GEMINI : GeminiMessageRole -> MessageType.

Definition randomUUID : M string := fun n => (Ok (uuid n), S n).

(** **** The vendor's side *)

Record FunctionCall := {
  call_name : string;
  call_args : Args;
}.

(** [candidate.content.role]. *)
Record Candidate := { content_role : GeminiMessageRole }.

(** [EnhancedGenerateContentResponse]: what its accessors [text()] and
    [functionCalls()] return or throw, and its candidates. *)
Record EnhancedGenerateContentResponse := {
  text : result string;
  functionCalls : result (option (list FunctionCall));
  candidates : option (list Candidate);
}.

Record GenerateContentResult := { response : EnhancedGenerateContentResponse }.

Record GoogleStreamGenerateContentResult := {
  stream : Generated EnhancedGenerateContentResponse;
}.

Record FunctionDeclarationsTool := {
  functionDeclarations : list FunctionDeclaration;
}.

Record StartChatParams := {
  history : list Content;
  safetySettings : list SafetySetting;
  start_tools : option (list FunctionDeclarationsTool);
}.

Record ChatSession := {
  sendMessage : list Part -> result GenerateContentResult;
  sendMessageStream : list Part -> result GoogleStreamGenerateContentResult;
}.

Record GoogleGenerativeModel := {
  startChat : StartChatParams -> ChatSession;
}.

(** **** The toolkit's side *)

Record ToolCall := {
  name : string;
  input : Args;
  id : string;
}.

(** [ToolCallLLMMessageOptions]: [{ toolCall }] or the empty object. *)
Record ToolCallLLMMessageOptions := {
  toolCall : option (list ToolCall);
}.

Definition empty_options : ToolCallLLMMessageOptions :=
  {| toolCall := None |}.

Record ResponseChunk := {
  delta : string;
  chunk_raw : EnhancedGenerateContentResponse;
  chunk_options : ToolCallLLMMessageOptions;
}.

Record ResponseMessage := {
  content : string;
  role : MessageType;
  options : ToolCallLLMMessageOptions;
}.

Record GeminiChatNonStreamResponse := {
  raw : EnhancedGenerateContentResponse;
  message : ResponseMessage;
}.

Record LLMMetadata := {
  md_model : GEMINI_MODEL;
  md_temperature : number;
  md_topP : number;
  md_maxTokens : option number;
  md_contextWindow : N;
}.

Record ChatParams := {
  messages : list ChatMessage;
  stream_flag : option bool;
  tools : option (list BaseTool);
}.

Record ChatContext := {
  ctx_message : list Part;
  ctx_history : list Content;
}.

Variable getChatContext : ChatParams -> result ChatContext.

(** **** [GeminiSession] *)

Definition GeminiSession_getResponseText
    (r : EnhancedGenerateContentResponse) : M string :=
  lift (text r).

Definition GeminiSession_getToolsFromResponse
    (r : EnhancedGenerateContentResponse) : M (option (list ToolCall)) :=
  calls <- lift (functionCalls r) ;;
  match calls with
  | None => ret None
  | Some calls =>
      tools <- mapM (fun call =>
                       i <- randomUUID ;;
                       ret {| name := call_name call;
                              input := call_args call;
                              id := i |}) calls ;;
      ret (Some tools)
  end.

(** [tools?.length ? { toolCall: tools } : {}]. *)
Definition options_of_tools (tools : option (list ToolCall))
    : ToolCallLLMMessageOptions :=
  if has_length tools then {| toolCall := tools |} else empty_options.

(** Modelled from the spec: [streamConverter] of @llamaindex/core/utils is
    not among these sources. The stream it returns passes the elements
    of the given stream through the converter one by one, in order (the
    "native async iterators" are passed through); it ends with the
    exception of the converter where the converter throws, and else as
    the given stream ends. *)
Fixpoint streamConverter {S D} (items : list S) (ending : option string)
    (converter : S -> M D) (n : nat) : Generated D * nat :=
  match items with
  | [] => ({| yielded := []; thrown := ending |}, n)
  | data :: rest =>
      match converter data n with
      | (Throw m, n') => ({| yielded := []; thrown := Some m |}, n')
      | (Ok newData, n') =>
          let '(g, n'') := streamConverter rest ending converter n' in
          ({| yielded := newData :: yielded g; thrown := thrown g |}, n'')
      end
  end.

(** The converter of [getChatStream]. *)
Definition chat_chunk (r : EnhancedGenerateContentResponse) : M ResponseChunk :=
  tools <- GeminiSession_getToolsFromResponse r ;;
  let options := options_of_tools tools in
  d <- GeminiSession_getResponseText r ;;
  ret {| delta := d; chunk_raw := r; chunk_options := options |}.

Definition GeminiSession_getChatStream
    (result : GoogleStreamGenerateContentResult) (n : nat)
    : Generated ResponseChunk * nat :=
  streamConverter (yielded (stream result)) (thrown (stream result))
                  chat_chunk n.

(** **** The interface [IGeminiSession] *)

Record IGeminiSession := {
  getGenerativeModel : LLMMetadata -> GoogleGenerativeModel;
  getResponseText : EnhancedGenerateContentResponse -> M string;
  getToolsFromResponse :
    EnhancedGenerateContentResponse -> M (option (list ToolCall));
  getChatStream :
    GoogleStreamGenerateContentResult -> nat -> Generated ResponseChunk * nat;
}.

(** A [GeminiSession] as an [IGeminiSession]; [client] is what
    [this.gemini.getGenerativeModel] returns for the default safety
    settings and the given metadata. *)
Definition GeminiSession
    (client : list SafetySetting -> LLMMetadata -> GoogleGenerativeModel)
    : IGeminiSession :=
  {| getGenerativeModel := client DEFAULT_SAFETY_SETTINGS;
     getResponseText := GeminiSession_getResponseText;
     getToolsFromResponse := GeminiSession_getToolsFromResponse;
     getChatStream := GeminiSession_getChatStream |}.

(** **** [Gemini] *)

Record Gemini := {
  model : GEMINI_MODEL;
  temperature : number;
  topP : number;
  maxTokens : option number;
  session : IGeminiSession;
}.

(** The getter [metadata]; reading [contextWindow] of a missing entry of
    the model-info map is a TypeError. *)
Definition metadata (this : Gemini) : result LLMMetadata :=
  match model_info (model this) with
  | Some info =>
      Ok {| md_model := model this;
            md_temperature := temperature this;
            md_topP := topP this;
            md_maxTokens := maxTokens this;
            md_contextWindow := contextWindow info |}
  | None => Throw type_error
  end.

Definition createStartChatParams (params : ChatParams) : result StartChatParams :=
  match getChatContext params with
  | Throw m => Throw m
  | Ok context =>
      match tools params with
      | Some (tool :: rest) =>
          Ok {| history := ctx_history context;
                start_tools :=
                  Some [ {| functionDeclarations :=
                              map mapBaseToolToGeminiFunctionDeclaration
                                  (tool :: rest) |} ];
                safetySettings := DEFAULT_SAFETY_SETTINGS |}
      | _ =>
          Ok {| history := ctx_history context;
                safetySettings := DEFAULT_SAFETY_SETTINGS;
                start_tools := None |}
      end
  end.

Definition nonStreamChat (this : Gemini) (params : ChatParams)
    : M GeminiChatNonStreamResponse :=
  context <- lift (getChatContext params) ;;
  md <- lift (metadata this) ;;
  let client := getGenerativeModel (session this) md in
  start <- lift (createStartChatParams params) ;;
  let chat := startChat client start in
  result <- lift (sendMessage chat (ctx_message context)) ;;
  let response := response result in
  candidates <- match candidates response with
                | Some cs => ret cs
                | None => throw type_error
                end ;;
  let topCandidate := head candidates in
  tools <- getToolsFromResponse (session this) response ;;
  let options := options_of_tools tools in
  content <- getResponseText (session this) response ;;
  top <- match topCandidate with
         | Some c => ret c
         | None => throw type_error
         end ;;
  ret {| raw := response;
         message := {| content := content;
                       role := ROLES_FROM_GEMINI (content_role top);
                       options := options |} |}.

(** The steps of [streamChat] before its [yield*]. *)
Definition streamChat_result (this : Gemini) (params : ChatParams)
    : result GoogleStreamGenerateContentResult :=
  match getChatContext params with
  | Throw m => Throw m
  | Ok context =>
      match metadata this with
      | Throw m => Throw m
      | Ok md =>
          let client := getGenerativeModel (session this) md in
          match createStartChatParams params with
          | Throw m => Throw m
          | Ok start =>
              sendMessageStream (startChat client start) (ctx_message context)
          end
      end
  end.

Definition streamChat (this : Gemini) (params : ChatParams) (n : nat)
    : Generated ResponseChunk * nat :=
  match streamChat_result this params with
  | Throw m => ({| yielded := []; thrown := Some m |}, n)
  | Ok result => getChatStream (session this) result n
  end.

(** What [chat] resolves to: the generator of [streamChat] or the
    outcome of [nonStreamChat]. *)
Inductive ChatResult : Type :=
| Streaming (chunks : Generated ResponseChunk)
| NonStreaming (outcome : result GeminiChatNonStreamResponse).

(** [if (params.stream)]. *)
Definition truthy (b : option bool) : bool :=
  match b with Some true => true | _ => false end.

(** [Gemini.chat]; the decorator [wrapLLMEvent] reports the call to the
    toolkit's event listeners and hands the result on. *)
Definition chat (this : Gemini) (params : ChatParams) (n : nat)
    : ChatResult * nat :=
  if truthy (stream_flag params)
  then let '(g, n') := streamChat this params n in (Streaming g, n')
  else let '(r, n') := nonStreamChat this params n in (NonStreaming r, n').

End Translation.

End Chat.

(** ** The context-aware agent *)

Module ContextAware.
Import Js.

(** The line feed of ["\n"]. *)
Definition newline : string := String (Ascii.ascii_of_nat 10) "".

(** [MessageContent]: a string or an array of detail objects. *)
Inductive MessageContent (Detail : Type) : Type :=
| Text (s : string)
| Details (parts : list Detail).
Arguments Text {Detail} s.
Arguments Details {Detail} parts.

(** The string a template literal makes of a content: a string stands for
    itself, an array for its elements joined by commas, and a detail
    object for ["[object Object]"]. *)
Definition to_string {Detail} (c : MessageContent Detail) : string :=
  match c with
  | Text s => s
  | Details parts => join "," (map (fun _ => "[object Object]") parts)
  end.

(** Message objects are addressed by their position in the heap. *)
Definition ref := nat.

Section Agent.

(** Types of the toolkit that are declared outside these sources. *)
Context {Detail MessageOptions BaseNode MetadataMode Params Response Base : Type}.

Variable NONE : MetadataMode.
Variable getContent : BaseNode -> MetadataMode -> string.
(** [params.message], and whether ["stream" in params && params.stream === true]. *)
Variable message : Params -> MessageContent Detail.
Variable stream_is_true : Params -> bool.

Record ChatMessage := {
  role : string;
  content : MessageContent Detail;
  options : option MessageOptions;
}.

#[global] Instance ChatMessage_inhabited : Inhabited ChatMessage :=
  populate {| role := ""; content := Text ""; options := None |}.

Record NodeWithScore := { node : BaseNode }.

Record BaseRetriever := {
  retrieve : MessageContent Detail -> result (list NodeWithScore);
}.

(** A [ContextAwareAgent]: the message objects, [this.chatHistory] (an
    array of references to them), the fields of the mixin, and the rest of
    the state of the wrapped agent. *)
Record ContextAwareAgent := {
  heap : list ChatMessage;
  chatHistory : list ref;
  contextRetriever : BaseRetriever;
  retrievedContext : option string;
  base : Base;
}.

(** [super.chat]: the chat method of the wrapped agent. *)
Variable super_chat : Params -> ContextAwareAgent -> result Response * ContextAwareAgent.

Definition retrieveContext (this : ContextAwareAgent) (query : MessageContent Detail)
    : result string :=
  match retrieve (contextRetriever this) query with
  | Throw m => Throw m
  | Ok nodes =>
      Ok (join newline (map (fun n => getContent (node n) NONE) nodes))
  end.

(** [msg.role === "system"] for the message behind a reference. *)
Definition is_system (this : ContextAwareAgent) (r : ref) : bool :=
  bool_decide (role (heap this !!! r) = "system").

Definition injectContext (context : string) (this : ContextAwareAgent)
    : ContextAwareAgent :=
  match List.find (is_system this) (chatHistory this) with
  | Some r =>
      let systemMessage := heap this !!! r in
      {| heap :=
           <[r := {| role := role systemMessage;
                     content :=
                       Text (context ++ newline ++ newline
                             ++ to_string (content systemMessage));
                     options := options systemMessage |}]> (heap this);
         chatHistory := chatHistory this;
         contextRetriever := contextRetriever this;
         retrievedContext := retrievedContext this;
         base := base this |}
  | None =>
      {| heap := heap this
                 ++ [ {| role := "system"; content := Text context;
                         options := None |} ];
         chatHistory := length (heap this) :: chatHistory this;
         contextRetriever := contextRetriever this;
         retrievedContext := retrievedContext this;
         base := base this |}
  end.

Definition chat (params : Params) (this : ContextAwareAgent)
    : result Response * ContextAwareAgent :=
  match retrieveContext this (message params) with
  | Throw m => (Throw m, this)
  | Ok context =>
      let this' := injectContext context this in
      if stream_is_true params
      then super_chat params this'
      else super_chat params this'
  end.

End Agent.

End ContextAware.

(** ** The constructor of [Gemini] *)

Module GeminiInit.
Import Js Models Session.

Section Init.

Context {number : Type}.

(** The literals [0.1] and [1]. *)
Variable number_0_1 : number.
Variable number_1 : number.

(** [GeminiConfig]: every field is optional. *)
Record GeminiConfig := {
  init_model : option GEMINI_MODEL;
  init_temperature : option number;
  init_topP : option number;
  init_maxTokens : option number;
  init_session : option ref;
}.

(** The fields of a [Gemini] object; [session] refers to a session object. *)
Record GeminiObject := {
  model : GEMINI_MODEL;
  temperature : number;
  topP : number;
  maxTokens : option number;
  session : ref;
}.

(** [init?.field ?? fallback]. *)
Definition field_or {A} (init : option GeminiConfig)
    (field : GeminiConfig -> option A) (fallback : A) : A :=
  match init with
  | Some config => match field config with Some v => v | None => fallback end
  | None => fallback
  end.

(** [init?.field]. *)
Definition field_of {A} (init : option GeminiConfig)
    (field : GeminiConfig -> option A) : option A :=
  match init with
  | Some config => field config
  | None => None
  end.

(** [new Gemini(init)]. *)
Definition Gemini_new (init : option GeminiConfig) (w : World)
    : result GeminiObject * World :=
  let model := field_or init init_model GEMINI_PRO in
  let temperature := field_or init init_temperature number_0_1 in
  let topP := field_or init init_topP number_1 in
  let maxTokens := field_of init init_maxTokens in
  match field_of init init_session with
  | Some s =>
      (Ok {| model := model; temperature := temperature; topP := topP;
             maxTokens := maxTokens; session := s |}, w)
  | None =>
      match get_default w with
      | (Ok s, w') =>
          (Ok {| model := model; temperature := temperature; topP := topP;
                 maxTokens := maxTokens; session := s |}, w')
      | (Throw m, w') => (Throw m, w')
      end
  end.

End Init.

End GeminiInit.

(** ** Completions *)

Module Completion.
Import Js Models Chat.

Section Complete.

Context {Args Part Content SafetySetting FunctionDeclaration GeminiMessageRole
         number MessageContent : Type}.

(** Helpers and vendor methods that are declared outside these sources:
    the parts of a prompt and their text, and the two generation methods of
    a vendor client. *)
Variable messageContentToGeminiParts : MessageContent -> list Part.
Variable getPartsText : list Part -> string.
Variable generateContent :
  @GoogleGenerativeModel Args Part Content SafetySetting FunctionDeclaration
                         GeminiMessageRole
  -> string -> result (@GenerateContentResult Args GeminiMessageRole).
Variable generateContentStream :
  @GoogleGenerativeModel Args Part Content SafetySetting FunctionDeclaration
                         GeminiMessageRole
  -> string -> result (@GoogleStreamGenerateContentResult Args GeminiMessageRole).

Record CompletionResponse := {
  completion_text : string;
  completion_raw : @EnhancedGenerateContentResponse Args GeminiMessageRole;
}.

(** The converter of [getCompletionStream]. *)
Definition completion_chunk
    (r : @EnhancedGenerateContentResponse Args GeminiMessageRole)
    : M CompletionResponse :=
  t <- GeminiSession_getResponseText r ;;
  ret {| completion_text := t; completion_raw := r |}.

(** [GeminiSession.getCompletionStream]. *)
Definition GeminiSession_getCompletionStream
    (result : @GoogleStreamGenerateContentResult Args GeminiMessageRole) (n : nat)
    : Generated CompletionResponse * nat :=
  streamConverter (yielded (stream result)) (thrown (stream result))
                  completion_chunk n.

(** The method [getCompletionStream] of the class of a session. *)
Variable getCompletionStream :
  @IGeminiSession Args Part Content SafetySetting FunctionDeclaration
                  GeminiMessageRole number
  -> @GoogleStreamGenerateContentResult Args GeminiMessageRole
  -> nat -> Generated CompletionResponse * nat.

Record CompletionParams := {
  prompt : MessageContent;
  completion_stream : option bool;
}.

(** What [complete] resolves to. *)
Inductive CompleteResult : Type :=
| CompletionStream (completions : Generated CompletionResponse)
| Completion (completion : CompletionResponse).

(** [Gemini.complete]. *)
Definition complete
    (this : @Gemini Args Part Content SafetySetting FunctionDeclaration
                    GeminiMessageRole number)
    (params : CompletionParams) : M CompleteResult :=
  md <- lift (metadata this) ;;
  let client := getGenerativeModel (session this) md in
  if truthy (completion_stream params)
  then
    result <- lift (generateContentStream client
                      (getPartsText (messageContentToGeminiParts (prompt params)))) ;;
    fun n =>
      let '(g, n') := getCompletionStream (session this) result n in
      (Ok (CompletionStream g), n')
  else
    result <- lift (generateContent client
                      (getPartsText (messageContentToGeminiParts (prompt params)))) ;;
    t <- getResponseText (session this) (response result) ;;
    ret (Completion {| completion_text := t; completion_raw := response result |}).

End Complete.

End Completion.

(** * Properties *)

Module IndexStoreSpec.
Import IndexStore.

(** C5: the two factories agree. For every connection string, database
    name and collection name (each name possibly omitted), the store built
    by [fromConnectionString] is the store built by [fromMongoClient] from
    the client of that connection string (application name
    "LLAMAINDEX_JS"); for every client the key-value store is configured
    with the names that were passed, or with "IndexStoreDB" and
    "IndexStoreCollection" where one is omitted, and the namespace is the
    database name, a dot, and the collection name. *)
Theorem factories_agree :
  forall (cs : string) (client : MongoClient) (db coll : option string),
    let byString := fromConnectionString cs db coll in
    let byClient := fromMongoClient client db coll in
    let db' := match db with Some name => name | None => "IndexStoreDB" end in
    let coll' :=
      match coll with Some name => name | None => "IndexStoreCollection" end in
    byString
      = fromMongoClient {| url := cs; appName := Some "LLAMAINDEX_JS" |} db coll
    /\ mongoClient (azureCosmosVCoreKVStore byString)
       = {| url := cs; appName := Some "LLAMAINDEX_JS" |}
    /\ mongoClient (azureCosmosVCoreKVStore byClient) = client
    /\ dbName (azureCosmosVCoreKVStore byString) = db'
    /\ dbName (azureCosmosVCoreKVStore byClient) = db'
    /\ collectionName (azureCosmosVCoreKVStore byString) = coll'
    /\ collectionName (azureCosmosVCoreKVStore byClient) = coll'
    /\ namespace byString = Some (db' ++ "." ++ coll')
    /\ namespace byClient = Some (db' ++ "." ++ coll')
    /\ (forall d c : string,
          fromMongoClient client (Some d) (Some c)
          = {| azureCosmosVCoreKVStore :=
                 {| mongoClient := client; dbName := d; collectionName := c |};
               namespace := Some (d ++ "." ++ c) |})
    /\ fromMongoClient client None None
       = {| azureCosmosVCoreKVStore :=
              {| mongoClient := client;
                 dbName := "IndexStoreDB";
                 collectionName := "IndexStoreCollection" |};
            namespace := Some "IndexStoreDB.IndexStoreCollection" |}.
Proof.
  intros cs client db coll. cbv zeta.
  destruct db as [d|], coll as [c|]; repeat split; reflexivity.
Qed.

(** The names that are passed are the names that are used. *)
Example factories_passed_names_run :
  fromConnectionString "mongodb://localhost:27017" (Some "my_db") (Some "my_collection")
  = {| azureCosmosVCoreKVStore :=
         {| mongoClient := {| url := "mongodb://localhost:27017";
                              appName := Some "LLAMAINDEX_JS" |};
            dbName := "my_db";
            collectionName := "my_collection" |};
       namespace := Some "my_db.my_collection" |}.
Proof. reflexivity. Qed.

End IndexStoreSpec.

Module ModelsSpec.
Import Models.

Lemma includes_In (xs : list GEMINI_MODEL) (x : GEMINI_MODEL) :
  includes xs x = true <-> In x xs.
Proof.
  induction xs as [|y rest IH]; simpl.
  - split; [discriminate | tauto].
  - destruct (decide (y = x)) as [->|Hne].
    + split; auto.
    + rewrite IH. split; [auto | intros [Heq|Hin]; [contradiction | exact Hin]].
Qed.

(** C10: [supportToolCall] is true exactly for the members of the fixed
    list of supported models, which has thirteen distinct members; the
    three models GEMINI_2_0_FLASH_THINKING_EXP,
    GEMINI_2_0_FLASH_LITE_PREVIEW and GEMINI_2_0_FLASH_LITE each have an
    entry in the model-info map and are not supported. *)
Theorem supportToolCall_exactly_listed :
  (forall m, supportToolCall m = true <-> In m SUPPORT_TOOL_CALL_MODELS)
  /\ length SUPPORT_TOOL_CALL_MODELS = 13
  /\ NoDup SUPPORT_TOOL_CALL_MODELS
  /\ supportToolCall GEMINI_2_0_FLASH_THINKING_EXP = false
  /\ supportToolCall GEMINI_2_0_FLASH_LITE_PREVIEW = false
  /\ supportToolCall GEMINI_2_0_FLASH_LITE = false
  /\ model_info GEMINI_2_0_FLASH_THINKING_EXP = Some {| contextWindow := 32768 |}
  /\ model_info GEMINI_2_0_FLASH_LITE_PREVIEW = Some {| contextWindow := 1000000 |}
  /\ model_info GEMINI_2_0_FLASH_LITE = Some {| contextWindow := 1000000 |}.
Proof.
  split; [intros m; apply includes_In|].
  split; [reflexivity|].
  split; [apply (bool_decide_unpack _); vm_compute; reflexivity|].
  repeat split; vm_compute; reflexivity.
Qed.

End ModelsSpec.

Module SessionSpec.
Import Js Session.

Definition no_key_message : string :=
  "Set Google API Key in GOOGLE_API_KEY env variable".

(** An options reference denotes an allocated object. *)
Definition allocated (w : World) (o : ref) : Prop :=
  o < length (options_heap w).

Lemma falsy_true (s : option string) :
  falsy s = true <-> s = None \/ s = Some "".
Proof.
  destruct s as [k|]; simpl.
  - destruct (decide (k = "")) as [->|Hk].
    + split; auto.
    + split; [discriminate | intros [H|H]; congruence].
  - split; auto.
Qed.

Lemma falsy_false (s : option string) :
  falsy s = false <-> exists k, s = Some k /\ k <> "".
Proof.
  destruct s as [k|]; simpl.
  - destruct (decide (k = "")) as [->|Hk].
    + split; [discriminate | intros (k & [= <-] & Hk); congruence].
    + split; eauto.
  - split; [discriminate | intros (k & H & _); discriminate].
Qed.

Lemma deref_set_apiKey_eq (w : World) (o : ref) (v : option string) :
  allocated w o ->
  deref (set_apiKey o v w) o = {| backend := backend (deref w o); apiKey := v |}.
Proof.
  intros Ho. unfold deref, set_apiKey; simpl.
  by rewrite list_lookup_total_insert_eq.
Qed.

Lemma deref_set_apiKey_ne (w : World) (o o' : ref) (v : option string) :
  o <> o' -> deref (set_apiKey o v w) o' = deref w o'.
Proof.
  intros Hne. unfold deref, set_apiKey; simpl.
  by rewrite list_lookup_total_insert_ne.
Qed.

(** The constructor, case by case: with a usable key in the options the
    world only gains the session; with none there, the options object is
    given the environment's key first. *)
Lemma GeminiSession_new_keyed (w : World) (o : ref) (k : string) :
  apiKey (deref w o) = Some k -> k <> "" ->
  GeminiSession_new o w =
    (Ok (length (session_heap w)),
     snd (alloc_session (GeminiSessionObject {| client_apiKey := k |}) w)).
Proof.
  intros Hk Hne. unfold GeminiSession_new.
  assert (falsy (apiKey (deref w o)) = false) as ->
    by (apply falsy_false; eauto).
  rewrite Hk. destruct (decide (k = "")); [contradiction | reflexivity].
Qed.

Lemma GeminiSession_new_from_env (w : World) (o : ref) (k : string) :
  allocated w o ->
  falsy (apiKey (deref w o)) = true ->
  GOOGLE_API_KEY w = Some k -> k <> "" ->
  GeminiSession_new o w =
    (Ok (length (session_heap w)),
     snd (alloc_session (GeminiSessionObject {| client_apiKey := k |})
            (set_apiKey o (Some k) w))).
Proof.
  intros Ho Hf Henv Hne. unfold GeminiSession_new.
  rewrite Hf, Henv, deref_set_apiKey_eq by done. simpl.
  destruct (decide (k = "")); [contradiction | reflexivity].
Qed.

Lemma GeminiSession_new_no_key (w : World) (o : ref) :
  allocated w o ->
  falsy (apiKey (deref w o)) = true ->
  falsy (GOOGLE_API_KEY w) = true ->
  GeminiSession_new o w =
    (Throw no_key_message, set_apiKey o (GOOGLE_API_KEY w) w).
Proof.
  intros Ho Hf Henv. unfold GeminiSession_new.
  rewrite Hf, deref_set_apiKey_eq by done. simpl.
  apply falsy_true in Henv as [-> | ->]; reflexivity.
Qed.

(** C3: the constructor of [GeminiSession] needs a key. With the apiKey
    option absent and GOOGLE_API_KEY unset it throws, and no session
    object (hence no vendor client) is created; with a key in the options
    or in the environment it returns a new session whose client was built
    with that key. A key is a non-empty string: the constructor throws
    exactly when the option and the variable are each absent or empty. *)
Theorem GeminiSession_new_requires_key (w : World) (o : ref) :
  allocated w o ->
  (apiKey (deref w o) = None -> GOOGLE_API_KEY w = None ->
     exists w', GeminiSession_new o w = (Throw no_key_message, w')
             /\ session_heap w' = session_heap w
             /\ sessions w' = sessions w)
  /\ (forall k, apiKey (deref w o) = Some k -> k <> "" ->
        exists w', GeminiSession_new o w = (Ok (length (session_heap w)), w')
          /\ session_heap w' =
               (session_heap w ++ [GeminiSessionObject {| client_apiKey := k |}])%list)
  /\ (forall k, GOOGLE_API_KEY w = Some k -> k <> "" ->
        exists k' w',
          GeminiSession_new o w = (Ok (length (session_heap w)), w')
          /\ session_heap w' =
               (session_heap w ++ [GeminiSessionObject {| client_apiKey := k' |}])%list
          /\ (falsy (apiKey (deref w o)) = true -> k' = k))
  /\ (is_ok (fst (GeminiSession_new o w)) = false <->
        falsy (apiKey (deref w o)) = true /\ falsy (GOOGLE_API_KEY w) = true)
  /\ (is_ok (fst (GeminiSession_new o w)) = false ->
        session_heap (snd (GeminiSession_new o w)) = session_heap w).
Proof.
  intros Ho.
  destruct (falsy (apiKey (deref w o))) eqn:Hopt;
    [destruct (falsy (GOOGLE_API_KEY w)) eqn:Henv|].
  - (* no key anywhere *)
    rewrite (GeminiSession_new_no_key w o Ho Hopt Henv).
    split; [intros _ _; eexists; repeat split; reflexivity|].
    split; [intros k Hk Hne;
            assert (falsy (apiKey (deref w o)) = false)
              by (apply falsy_false; eauto); congruence|].
    split; [intros k Hk Hne;
            assert (falsy (GOOGLE_API_KEY w) = false)
              by (apply falsy_false; eauto); congruence|].
    split; [split; auto | reflexivity].
  - (* the key of the environment *)
    apply falsy_false in Henv as (k & Henv & Hne).
    rewrite (GeminiSession_new_from_env w o k Ho Hopt Henv Hne).
    split; [intros _ He; congruence|].
    split; [intros k0 Hk0 Hne0;
            assert (falsy (apiKey (deref w o)) = false)
              by (apply falsy_false; eauto); congruence|].
    split; [intros k0 Hk0 _; exists k; eexists; repeat split; congruence|].
    split; [split; [discriminate | intros [_ H]; discriminate] | discriminate].
  - (* the key of the options *)
    apply falsy_false in Hopt as (k & Hk & Hne).
    rewrite (GeminiSession_new_keyed w o k Hk Hne).
    split; [intros Hn; congruence|].
    split; [intros k0 Hk0 _; eexists; split; [reflexivity|];
            simpl; congruence|].
    split; [intros k0 _ _; exists k; eexists; repeat split; discriminate|].
    split; [split; [discriminate | intros [H _]; discriminate] | discriminate].
Qed.

(** No key in the options and none in the environment. *)
Definition no_key_world : World :=
  {| GOOGLE_API_KEY := None;
     options_heap := [ {| backend := GOOGLE; apiKey := None |} ];
     session_heap := [];
     sessions := [] |}.

(** A key in the environment only. *)
Definition env_only_world : World :=
  {| GOOGLE_API_KEY := Some "K";
     options_heap := [ {| backend := GOOGLE; apiKey := None |} ];
     session_heap := [];
     sessions := [] |}.

Lemma GeminiSession_new_requires_key_witness :
  (exists w', GeminiSession_new 0 no_key_world = (Throw no_key_message, w')
           /\ session_heap w' = []
           /\ sessions w' = [])
  /\ (exists k' w', GeminiSession_new 0 env_only_world = (Ok 0, w')
           /\ session_heap w' = [ GeminiSessionObject {| client_apiKey := k' |} ]
           /\ (true = true -> k' = "K")).
Proof.
  split.
  - exact (proj1 (GeminiSession_new_requires_key no_key_world 0 (le_n 1))
                 eq_refl eq_refl).
  - refine (proj1 (proj2 (proj2
              (GeminiSession_new_requires_key env_only_world 0 (le_n 1))))
              "K" eq_refl _).
    discriminate.
Defined.

Example GeminiSession_new_empty_key_run :
  GeminiSession_new 0
    {| GOOGLE_API_KEY := None;
       options_heap := [ {| backend := GOOGLE; apiKey := Some "" |} ];
       session_heap := [];
       sessions := [] |}
  = (Throw no_key_message,
     {| GOOGLE_API_KEY := None;
        options_heap := [ {| backend := GOOGLE; apiKey := None |} ];
        session_heap := [];
        sessions := [] |}).
Proof. reflexivity. Qed.

(** *** Lookups in the store *)

(** The session id of the object behind a reference. *)
Definition id_at (w : World) (o : ref) : string := getSessionId (deref w o).

Lemma sessionMatched_id (w : World) (o o' : ref) :
  sessionMatched (deref w o') (deref w o) = true <-> id_at w o' = id_at w o.
Proof. unfold sessionMatched, id_at. apply bool_decide_eq_true. Qed.

Lemma sessionMatched_not_id (w : World) (o o' : ref) :
  sessionMatched (deref w o') (deref w o) = false <-> id_at w o' <> id_at w o.
Proof. unfold sessionMatched, id_at. apply bool_decide_eq_false. Qed.

(** [Array.prototype.find] returns the first element that satisfies the
    predicate. *)
Lemma find_first {A} (f : A -> bool) (pre : list A) (e : A) (post : list A) :
  Forall (fun x => f x = false) pre -> f e = true ->
  List.find f (pre ++ e :: post) = Some e.
Proof.
  intros Hpre He. induction Hpre as [|x pre Hx _ IH]; simpl.
  - by rewrite He.
  - by rewrite Hx.
Qed.

Lemma find_miss {A} (f : A -> bool) (l : list A) :
  Forall (fun x => f x = false) l -> List.find f l = None.
Proof.
  induction 1 as [|x l Hx _ IH]; simpl; [done|]. by rewrite Hx.
Qed.

Lemma find_cases {A} (f : A -> bool) (l : list A) :
  (List.find f l = None /\ Forall (fun x => f x = false) l)
  \/ (exists pre e post, l = (pre ++ e :: post)%list
        /\ Forall (fun x => f x = false) pre /\ f e = true
        /\ List.find f l = Some e).
Proof.
  induction l as [|x l IH]; simpl.
  - left. split; [done | constructor].
  - destruct (f x) eqn:Hx.
    + right. exists [], x, l. repeat split; [constructor | done].
    + destruct IH as [[Hn Hall] | (pre & e & post & -> & Hpre & He & Hf)].
      * left. split; [done | by constructor].
      * right. exists (x :: pre), e, post.
        repeat split; [by constructor | done | done].
Qed.

(** A lookup is a hit on the first entry whose session id is the id of the
    argument; the world is left as it was. *)
Lemma get_hit (w : World) (o : ref) (pre : list StoreEntry) (e : StoreEntry)
    (post : list StoreEntry) :
  sessions w = (pre ++ e :: post)%list ->
  Forall (fun e' => id_at w (options e') <> id_at w o) pre ->
  id_at w (options e) = id_at w o ->
  get o w = (Ok (session e), w).
Proof.
  intros Hs Hpre He. unfold get. rewrite Hs.
  rewrite (find_first _ pre e post); [done | | by apply sessionMatched_id].
  eapply Forall_impl; [exact Hpre|].
  intros e' He'. by apply sessionMatched_not_id.
Qed.

(** Without such an entry the backend decides: Vertex options are
    rejected, Google options get a new session, which is stored with the
    options object itself. *)
Lemma get_miss (w : World) (o : ref) :
  Forall (fun e' => id_at w (options e') <> id_at w o) (sessions w) ->
  get o w =
    match backend (deref w o) with
    | VERTEX => (Throw "No Session", w)
    | GOOGLE =>
        match GeminiSession_new o w with
        | (Ok s, w') => (Ok s, push {| session := s; options := o |} w')
        | (Throw m, w') => (Throw m, w')
        end
    end.
Proof.
  intros Hall. unfold get. rewrite find_miss; [done|].
  eapply Forall_impl; [exact Hall|].
  intros e' He'. by apply sessionMatched_not_id.
Qed.

Lemma get_cases (w : World) (o : ref) :
  Forall (fun e' => id_at w (options e') <> id_at w o) (sessions w)
  \/ (exists pre e post, sessions w = (pre ++ e :: post)%list
        /\ Forall (fun e' => id_at w (options e') <> id_at w o) pre
        /\ id_at w (options e) = id_at w o).
Proof.
  destruct (find_cases
              (fun e => sessionMatched (deref w (options e)) (deref w o))
              (sessions w))
    as [[_ Hall] | (pre & e & post & Hs & Hpre & He & _)].
  - left. eapply Forall_impl; [exact Hall|].
    intros e' He'. by apply sessionMatched_not_id.
  - right. exists pre, e, post. repeat split; [done | | by apply sessionMatched_id].
    eapply Forall_impl; [exact Hpre|].
    intros e' He'. by apply sessionMatched_not_id.
Qed.

Lemma id_at_vertex (w : World) (o : ref) :
  backend (deref w o) = VERTEX -> id_at w o = "".
Proof. intros Hb. unfold id_at, getSessionId. by rewrite Hb. Qed.

(** A store that already holds a session of another implementation under
    Vertex options, and one more Vertex options object. *)
Definition vertex_cached : World :=
  {| GOOGLE_API_KEY := None;
     options_heap := [ {| backend := VERTEX; apiKey := None |};
                       {| backend := VERTEX; apiKey := None |} ];
     session_heap := [ OtherSessionObject "vertex" ];
     sessions := [ {| session := 0; options := 0 |} ] |}.

(** C4, as stated, fails: with a session cached under the empty session
    id, a lookup with Vertex options returns that session and does not
    throw. *)
Lemma get_vertex_cached_returns :
  backend (deref vertex_cached 1) = VERTEX
  /\ get 1 vertex_cached = (Ok 0, vertex_cached)
  /\ ~ (forall w o, allocated w o -> backend (deref w o) = VERTEX ->
                   exists m, fst (get o w) = Throw m).
Proof.
  split; [reflexivity|]. split; [reflexivity|].
  intros H. destruct (H vertex_cached 1) as [m Hm];
    [unfold allocated; simpl; lia | reflexivity | discriminate Hm].
Qed.

(** C4, amended: for options with backend VERTEX, [get] throws
    "No Session" exactly when no entry of the store has the empty session
    id, and the store is left as it was; when an entry has the empty
    session id, the session of the first such entry is returned. *)
Theorem get_vertex_throws_unless_cached (w : World) (o : ref) :
  backend (deref w o) = VERTEX ->
  (Forall (fun e => id_at w (options e) <> "") (sessions w) ->
     get o w = (Throw "No Session", w))
  /\ (forall pre e post,
        sessions w = (pre ++ e :: post)%list ->
        Forall (fun e' => id_at w (options e') <> "") pre ->
        id_at w (options e) = "" ->
        get o w = (Ok (session e), w))
  /\ ((exists m, fst (get o w) = Throw m) <->
        Forall (fun e => id_at w (options e) <> "") (sessions w))
  /\ snd (get o w) = w.
Proof.
  intros Hb. pose proof (id_at_vertex w o Hb) as Hid.
  assert (Hthrow : Forall (fun e => id_at w (options e) <> "") (sessions w) ->
                   get o w = (Throw "No Session", w)).
  { intros Hall. rewrite get_miss; [by rewrite Hb | by rewrite Hid]. }
  assert (Hhit : forall pre e post,
             sessions w = (pre ++ e :: post)%list ->
             Forall (fun e' => id_at w (options e') <> "") pre ->
             id_at w (options e) = "" ->
             get o w = (Ok (session e), w)).
  { intros pre e post Hs Hpre He.
    apply (get_hit w o pre e post Hs); by rewrite Hid. }
  split; [exact Hthrow|]. split; [exact Hhit|].
  destruct (get_cases w o) as [Hall | (pre & e & post & Hs & Hpre & He)];
    rewrite Hid in *.
  - rewrite (Hthrow Hall). split; [|reflexivity].
    split; [done | intros _; by eexists].
  - rewrite (Hhit pre e post Hs Hpre He). split; [|reflexivity].
    split; [intros [m Hm]; discriminate Hm|].
    intros Hall. rewrite Hs in Hall.
    apply Forall_app in Hall as [_ Hall].
    apply Forall_cons in Hall as [Hne _]. contradiction.
Qed.

(** An empty store and one Vertex options object. *)
Definition vertex_only : World :=
  {| GOOGLE_API_KEY := Some "K";
     options_heap := [ {| backend := VERTEX; apiKey := None |} ];
     session_heap := [];
     sessions := [] |}.

(** On the empty store a Vertex lookup throws. *)
Lemma get_vertex_throws_unless_cached_witness :
  backend (deref vertex_only 0) = VERTEX
  /\ get 0 vertex_only = (Throw "No Session", vertex_only).
Proof.
  split; [reflexivity|].
  apply (proj1 (get_vertex_throws_unless_cached vertex_only 0 eq_refl)).
  constructor.
Defined.

(** *** Options without a key *)



(** *** Two lookups in a row *)

(** X1: a second lookup with options of the same session id returns the
    session of the first lookup, and creates nothing, when the first lookup
    was answered from the store or its options carry a non-empty apiKey. *)
Lemma get_again (w w1 : World) (o1 o2 s : ref) :
  get o1 w = (Ok s, w1) ->
  Exists (fun e => id_at w (options e) = id_at w o1) (sessions w)
    \/ falsy (apiKey (deref w o1)) = false ->
  id_at w o2 = id_at w o1 ->
  get o2 w1 = (Ok s, w1) /\ options_heap w1 = options_heap w.
Proof.
  intros Hget Hcase Hid.
  destruct (get_cases w o1) as [Hall | (pre & e & post & Hs & Hpre & He)].
  - (* the first lookup created the session *)
    destruct Hcase as [Hex | Hkey].
    { apply Exists_exists in Hex as (e & Hin & He).
      rewrite Forall_forall in Hall. by destruct (Hall e Hin). }
    apply falsy_false in Hkey as (k & Hk & Hne).
    rewrite (get_miss w o1 Hall) in Hget.
    destruct (backend (deref w o1)) eqn:Hb; [|discriminate Hget].
    rewrite (GeminiSession_new_keyed w o1 k Hk Hne) in Hget.
    injection Hget as <- <-. split; [|reflexivity].
    apply (get_hit _ o2 (sessions w)
             {| session := length (session_heap w); options := o1 |} []).
    + reflexivity.
    + eapply Forall_impl; [exact Hall|]. intros e' He'.
      unfold id_at, deref in *. simpl. congruence.
    + unfold id_at, deref in *. simpl. congruence.
  - (* the first lookup was answered from the store *)
    rewrite (get_hit w o1 pre e post Hs Hpre He) in Hget.
    injection Hget as <- <-. split; [|reflexivity].
    apply (get_hit w o2 pre e post Hs); rewrite Hid; done.
Qed.

(** Two callers that each pass the key "K" in their options. *)
Definition two_keyed_world : World :=
  {| GOOGLE_API_KEY := None;
     options_heap := [ {| backend := GOOGLE; apiKey := Some "K" |};
                       {| backend := GOOGLE; apiKey := Some "K" |} ];
     session_heap := [];
     sessions := [] |}.

Lemma get_again_witness :
  exists w1,
    get 0 two_keyed_world = (Ok 0, w1)
    /\ get 1 w1 = (Ok 0, w1)
    /\ session_heap w1 = [ GeminiSessionObject {| client_apiKey := "K" |} ].
Proof.
  eexists. split; [reflexivity|]. split; [|reflexivity].
  exact (proj1 (get_again two_keyed_world _ 0 1 0 eq_refl
                  (or_intror eq_refl) eq_refl)).
Defined.

(** The process has GOOGLE_API_KEY set; the store is empty; two callers
    each hold an options object [{ backend: GOOGLE }]. *)
Definition env_key_world : World :=
  {| GOOGLE_API_KEY := Some "K";
     options_heap := [ {| backend := GOOGLE; apiKey := None |};
                       {| backend := GOOGLE; apiKey := None |} ];
     session_heap := [];
     sessions := [] |}.

(** C2 at that input: the two options objects have the same session id,
    yet the second lookup builds a second session. The constructor wrote
    the key of the environment into the first options object, which is
    the one the store holds, so the stored id is no longer the id the
    second lookup asks for. The same happens with two calls of [get()]. *)
Theorem get_twice_env_key_constructs_twice :
  sessionMatched (deref env_key_world 0) (deref env_key_world 1) = true
  /\ (exists w1 w2,
        get 0 env_key_world = (Ok 0, w1)
        /\ get 1 w1 = (Ok 1, w2)
        /\ deref w1 0 = {| backend := GOOGLE; apiKey := Some "K" |}
        /\ sessionMatched (deref w1 0) (deref w1 1) = false
        /\ session_heap w1 = [ GeminiSessionObject {| client_apiKey := "K" |} ]
        /\ session_heap w2 = [ GeminiSessionObject {| client_apiKey := "K" |};
                               GeminiSessionObject {| client_apiKey := "K" |} ])
  /\ (exists w1 w2,
        get_default env_key_world = (Ok 0, w1)
        /\ get_default w1 = (Ok 1, w2)
        /\ length (session_heap w2) = 2).
Proof.
  split; [reflexivity|].
  split; do 2 eexists; repeat split; reflexivity.
Qed.

(** The defect in general: whenever the key comes from the environment and
    no entry has the empty session id, two lookups with two options objects
    [{ backend: GOOGLE }] build two sessions. *)
Lemma get_twice_keyless_constructs_twice (w : World) (o1 o2 : ref) (k : string) :
  allocated w o1 -> allocated w o2 -> o1 <> o2 ->
  deref w o1 = {| backend := GOOGLE; apiKey := None |} ->
  deref w o2 = {| backend := GOOGLE; apiKey := None |} ->
  GOOGLE_API_KEY w = Some k -> k <> "" ->
  Forall (fun e => id_at w (options e) <> "") (sessions w) ->
  exists w1 w2,
    get o1 w = (Ok (length (session_heap w)), w1)
    /\ get o2 w1 = (Ok (S (length (session_heap w))), w2)
    /\ length (session_heap w2) = S (S (length (session_heap w))).
Proof.
  intros Ho1 Ho2 Hne Hd1 Hd2 Henv Hk Hall.
  assert (id_at w o1 = "") as Hid1 by (unfold id_at; by rewrite Hd1).
  assert (falsy (apiKey (deref w o1)) = true) as Hf1 by (by rewrite Hd1).
  set (w0 := set_apiKey o1 (Some k) w).
  set (w1 := push {| session := length (session_heap w); options := o1 |}
               (snd (alloc_session (GeminiSessionObject {| client_apiKey := k |}) w0))).
  assert (get o1 w = (Ok (length (session_heap w)), w1)) as Hget1.
  { rewrite get_miss by (by rewrite Hid1).
    rewrite Hd1. simpl backend.
    by rewrite (GeminiSession_new_from_env w o1 k Ho1 Hf1 Henv Hk). }
  assert (forall o, deref w1 o = deref w0 o) as Hw1 by done.
  assert (deref w1 o2 = {| backend := GOOGLE; apiKey := None |}) as Hd2'.
  { rewrite Hw1. unfold w0. by rewrite deref_set_apiKey_ne. }
  assert (deref w1 o1 = {| backend := GOOGLE; apiKey := Some k |}) as Hd1'.
  { rewrite Hw1. unfold w0. rewrite deref_set_apiKey_eq by done. by rewrite Hd1. }
  assert (id_at w1 o2 = "") as Hid2 by (unfold id_at; by rewrite Hd2').
  assert (Forall (fun e => id_at w1 (options e) <> id_at w1 o2) (sessions w1))
    as Hall1.
  { rewrite Hid2. unfold w1 at 2. simpl. apply Forall_app. split.
    - rewrite Forall_forall in Hall. apply Forall_forall. intros e He.
      specialize (Hall e He).
      assert (options e <> o1) as Hneo by (intros Heq; rewrite Heq in Hall; done).
      unfold id_at in *. rewrite Hw1. unfold w0.
      by rewrite deref_set_apiKey_ne.
    - constructor; [|constructor]. simpl. unfold id_at. rewrite Hd1'.
      by unfold getSessionId. }
  assert (allocated w1 o2) as Ho2'.
  { unfold allocated, w1, w0. simpl. by rewrite length_insert. }
  assert (length (session_heap w1) = S (length (session_heap w))) as Hlen1.
  { unfold w1. simpl. rewrite length_app. simpl. lia. }
  assert (get o2 w1
          = (Ok (length (session_heap w1)),
             push {| session := length (session_heap w1); options := o2 |}
               (snd (alloc_session (GeminiSessionObject {| client_apiKey := k |})
                       (set_apiKey o2 (Some k) w1))))) as Hget2.
  { rewrite (get_miss w1 o2 Hall1). rewrite Hd2'. simpl backend.
    by rewrite (GeminiSession_new_from_env w1 o2 k Ho2');
      [|by rewrite Hd2'|done|done]. }
  rewrite Hlen1 in Hget2.
  exists w1. eexists. split; [exact Hget1|]. split; [exact Hget2|].
  cbn [push alloc_session snd session_heap set_apiKey].
  rewrite length_app, Hlen1. simpl. lia.
Qed.

(** *** Stores filled by [get] alone *)

(** Every entry of the store was stored with allocated Google options that
    carry a non-empty apiKey. *)
Definition keyed (w : World) (o : ref) : Prop :=
  allocated w o
  /\ backend (deref w o) = GOOGLE
  /\ falsy (apiKey (deref w o)) = false.

Definition keyed_entries (w : World) : Prop :=
  Forall (fun e => keyed w (options e)) (sessions w).

(** The worlds reached from an empty store when callers create options
    objects and call [get], and nothing else writes to the store or to the
    options objects. *)
Inductive filled_by_get : World -> Prop :=
| filled_start (env : option string) (objects : list GeminiSessionOptions) :
    filled_by_get {| GOOGLE_API_KEY := env;
                     options_heap := objects;
                     session_heap := [];
                     sessions := [] |}
| filled_alloc (v : GeminiSessionOptions) (w : World) :
    filled_by_get w -> filled_by_get (snd (alloc_options v w))
| filled_get (o : ref) (w : World) :
    filled_by_get w -> allocated w o -> filled_by_get (snd (get o w)).

Lemma keyed_id (w : World) (o : ref) : keyed w o -> id_at w o <> "".
Proof.
  intros (_ & Hb & Hk). apply falsy_false in Hk as (k & Hk & Hne).
  unfold id_at, getSessionId. by rewrite Hb, Hk.
Qed.

Lemma keyed_alloc_options (v : GeminiSessionOptions) (w : World) (o : ref) :
  keyed w o -> keyed (snd (alloc_options v w)) o.
Proof.
  unfold keyed, allocated, deref. simpl. intros (Ho & Hb & Hk).
  rewrite length_app, lookup_total_app_l by done. split; [lia | done].
Qed.

Lemma keyed_set_apiKey (w : World) (o o' : ref) (v : option string) :
  falsy (apiKey (deref w o)) = true ->
  keyed w o' -> keyed (set_apiKey o v w) o'.
Proof.
  intros Hf (Ho' & Hb & Hk).
  assert (o <> o') as Hne by (intros ->; congruence).
  unfold keyed. rewrite deref_set_apiKey_ne by done.
  split; [|done]. unfold allocated, set_apiKey. simpl.
  by rewrite length_insert.
Qed.

Lemma keyed_set_apiKey_self (w : World) (o : ref) (k : string) :
  allocated w o -> backend (deref w o) = GOOGLE -> k <> "" ->
  keyed (set_apiKey o (Some k) w) o.
Proof.
  intros Ho Hb Hne. unfold keyed. rewrite deref_set_apiKey_eq by done.
  split; [unfold allocated, set_apiKey; simpl; by rewrite length_insert|].
  split; [done | apply falsy_false; simpl; eauto].
Qed.

(** Being keyed only depends on the options objects. *)
Lemma keyed_same_options (w w' : World) (o : ref) :
  options_heap w' = options_heap w -> keyed w o -> keyed w' o.
Proof. unfold keyed, allocated, deref. by intros ->. Qed.

Lemma keyed_entries_get (o : ref) (w : World) :
  allocated w o -> keyed_entries w -> keyed_entries (snd (get o w)).
Proof.
  intros Ho Hw.
  destruct (get_cases w o) as [Hall | (pre & e & post & Hs & Hpre & He)];
    [|by rewrite (get_hit w o pre e post Hs Hpre He)].
  rewrite (get_miss w o Hall).
  destruct (backend (deref w o)) eqn:Hb; [|done].
  destruct (falsy (apiKey (deref w o))) eqn:Hopt;
    [destruct (falsy (GOOGLE_API_KEY w)) eqn:Henv|].
  - rewrite (GeminiSession_new_no_key w o Ho Hopt Henv). simpl.
    unfold keyed_entries in *. simpl.
    eapply Forall_impl; [exact Hw|]. intros e. by apply keyed_set_apiKey.
  - apply falsy_false in Henv as (k & Henv & Hne).
    rewrite (GeminiSession_new_from_env w o k Ho Hopt Henv Hne). simpl.
    unfold keyed_entries in *. simpl. apply Forall_app. split.
    + eapply Forall_impl; [exact Hw|]. intros e He.
      apply (keyed_same_options (set_apiKey o (Some k) w)); [done|].
      by apply keyed_set_apiKey.
    + constructor; [|constructor]. simpl.
      apply (keyed_same_options (set_apiKey o (Some k) w)); [done|].
      by apply keyed_set_apiKey_self.
  - pose proof Hopt as Hopt'.
    apply falsy_false in Hopt as (k & Hk & Hne).
    rewrite (GeminiSession_new_keyed w o k Hk Hne). simpl.
    unfold keyed_entries in *. simpl. apply Forall_app. split.
    + eapply Forall_impl; [exact Hw|]. intros e He.
      by apply (keyed_same_options w).
    + constructor; [|constructor]. simpl.
      by apply (keyed_same_options w).
Qed.

Lemma filled_by_get_keyed (w : World) : filled_by_get w -> keyed_entries w.
Proof.
  induction 1 as [env objects | v w _ IH | o w _ IH Ho].
  - constructor.
  - unfold keyed_entries in *. simpl.
    eapply Forall_impl; [exact IH|]. intros e. apply keyed_alloc_options.
  - by apply keyed_entries_get.
Qed.

(** In a store filled by [get] alone no entry has the empty session id. *)
Lemma filled_by_get_no_empty_id (w : World) :
  filled_by_get w ->
  Forall (fun e => id_at w (options e) <> "") (sessions w).
Proof.
  intros Hw. eapply Forall_impl; [exact (filled_by_get_keyed w Hw)|].
  intros e. apply keyed_id.
Qed.

(** X2: in a store filled by [get] alone, every lookup with options of
    the Vertex backend throws "No Session" and leaves the store as it was. *)
Lemma get_vertex_throws_when_filled_by_get (w : World) (o : ref) :
  filled_by_get w -> backend (deref w o) = VERTEX ->
  get o w = (Throw "No Session", w).
Proof.
  intros Hw Hb.
  rewrite get_miss; [by rewrite Hb|].
  rewrite (id_at_vertex w o Hb). by apply filled_by_get_no_empty_id.
Qed.

(** One Google lookup with the key of the environment, then a Vertex one. *)
Definition google_then_vertex : World :=
  snd (get 0 {| GOOGLE_API_KEY := Some "K";
                options_heap := [ {| backend := GOOGLE; apiKey := None |};
                                  {| backend := VERTEX; apiKey := None |} ];
                session_heap := [];
                sessions := [] |}).

Lemma get_vertex_throws_when_filled_by_get_witness :
  sessions google_then_vertex = [ {| session := 0; options := 0 |} ]
  /\ get 1 google_then_vertex = (Throw "No Session", google_then_vertex).
Proof.
  split; [reflexivity|].
  apply (get_vertex_throws_when_filled_by_get google_then_vertex 1);
    [|reflexivity].
  apply filled_get; [apply filled_start|].
  unfold allocated. simpl. lia.
Defined.

(** *** Lookups with options that carry no key *)









End SessionSpec.

Module ChatSpec.
Import Js Models Chat.

Section Translation.

Context {Args Part Content SafetySetting FunctionDeclaration BaseTool
         GeminiMessageRole MessageType ChatMessage number : Type}.

Variable uuid : nat -> string.
Variable DEFAULT_SAFETY_SETTINGS : list SafetySetting.
Variable mapBaseToolToGeminiFunctionDeclaration : BaseTool -> FunctionDeclaration.
Variable ROLES_FROM_GEMINI : GeminiMessageRole -> MessageType.
Variable getChatContext :
  @ChatParams BaseTool ChatMessage -> result (@ChatContext Part Content).

Local Abbreviation Response :=
  (@EnhancedGenerateContentResponse Args GeminiMessageRole).
Local Abbreviation Session :=
  (@IGeminiSession Args Part Content SafetySetting FunctionDeclaration
                   GeminiMessageRole number).
Local Abbreviation GeminiLLM :=
  (@Gemini Args Part Content SafetySetting FunctionDeclaration
           GeminiMessageRole number).
Local Abbreviation Chunk := (@ResponseChunk Args GeminiMessageRole).
Local Abbreviation StreamResult :=
  (@GoogleStreamGenerateContentResult Args GeminiMessageRole).
Local Abbreviation NonStreamResponse :=
  (@GeminiChatNonStreamResponse Args GeminiMessageRole MessageType).
Local Abbreviation Params := (@ChatParams BaseTool ChatMessage).
Local Abbreviation getTools := (GeminiSession_getToolsFromResponse uuid).
Local Abbreviation getText := (@GeminiSession_getResponseText Args GeminiMessageRole).
Local Abbreviation getStream := (GeminiSession_getChatStream uuid).
Local Abbreviation nonStream :=
  (nonStreamChat (MessageType := MessageType) DEFAULT_SAFETY_SETTINGS
     mapBaseToolToGeminiFunctionDeclaration ROLES_FROM_GEMINI getChatContext).
Local Abbreviation streaming :=
  (streamChat DEFAULT_SAFETY_SETTINGS
     mapBaseToolToGeminiFunctionDeclaration getChatContext).
Local Abbreviation streaming_result :=
  (streamChat_result DEFAULT_SAFETY_SETTINGS
     mapBaseToolToGeminiFunctionDeclaration getChatContext).
Local Abbreviation chatting :=
  (chat (MessageType := MessageType) DEFAULT_SAFETY_SETTINGS
     mapBaseToolToGeminiFunctionDeclaration ROLES_FROM_GEMINI getChatContext).

(** The tool call made of the i-th function call when [n] UUIDs were
    drawn before the extraction started. *)
Definition tool_of_call (n i : nat) (call : @FunctionCall Args) : ToolCall :=
  {| name := call_name call; input := call_args call; id := uuid (n + i) |}.

Lemma imap_tool_of_call_cons (n : nat) (call : @FunctionCall Args)
    (rest : list (@FunctionCall Args)) :
  imap (tool_of_call n) (call :: rest)
  = {| name := call_name call; input := call_args call; id := uuid n |}
      :: imap (tool_of_call (S n)) rest.
Proof.
  rewrite imap_cons. unfold tool_of_call at 1. rewrite Nat.add_0_r. f_equal.
  apply imap_ext. intros i call' _. unfold tool_of_call; simpl.
  do 2 f_equal. lia.
Qed.

Lemma mapM_tool_calls (calls : list (@FunctionCall Args)) (n : nat) :
  mapM (fun call =>
          i <- randomUUID uuid ;;
          ret {| name := call_name call; input := call_args call; id := i |})
       calls n
  = (Ok (imap (tool_of_call n) calls), n + length calls).
Proof.
  revert n. induction calls as [|call rest IH]; intros n.
  - simpl. unfold ret. by rewrite Nat.add_0_r.
  - rewrite imap_tool_of_call_cons. cbn [mapM].
    unfold bind, randomUUID, ret in *. rewrite IH.
    simpl. f_equal. lia.
Qed.

(** The extraction, by the cases of [functionCalls()]. *)
Lemma getToolsFromResponse_cases (r : Response) (n : nat) :
  getTools r n =
    match functionCalls r with
    | Throw m => (Throw m, n)
    | Ok None => (Ok None, n)
    | Ok (Some calls) =>
        (Ok (Some (imap (tool_of_call n) calls)), n + length calls)
    end.
Proof.
  unfold GeminiSession_getToolsFromResponse, bind at 1, lift.
  destruct (functionCalls r) as [[calls|]|m]; [|reflexivity|reflexivity].
  unfold bind. by rewrite mapM_tool_calls.
Qed.

(** C6: [getResponseText] returns what the accessor [text()] of the
    response returns (or throws what it throws); [getToolsFromResponse]
    returns undefined when [functionCalls()] reports none, and else a
    list as long as the list of function calls whose i-th tool call has
    the name and the arguments of the i-th function call (and a new
    UUID as id). *)
Theorem GeminiSession_extracts_text_and_tools :
  (forall (r : Response) (n : nat), getText r n = (text r, n))
  /\ (forall (r : Response) (n : nat),
        functionCalls r = Ok None -> getTools r n = (Ok None, n))
  /\ (forall (r : Response) (n : nat) (calls : list FunctionCall),
        functionCalls r = Ok (Some calls) ->
        exists tools,
          getTools r n = (Ok (Some tools), n + length calls)
          /\ length tools = length calls
          /\ (forall i call, calls !! i = Some call ->
                exists tool, tools !! i = Some tool
                  /\ name tool = call_name call
                  /\ input tool = call_args call
                  /\ id tool = uuid (n + i)))
  /\ (forall (r : Response) (n : nat) (m : string),
        functionCalls r = Throw m -> getTools r n = (Throw m, n)).
Proof.
  split; [reflexivity|].
  split; [intros r n H; by rewrite getToolsFromResponse_cases, H|].
  split; [|intros r n m H; by rewrite getToolsFromResponse_cases, H].
  intros r n calls H. exists (imap (tool_of_call n) calls).
  rewrite getToolsFromResponse_cases, H.
  split; [reflexivity|]. split; [apply length_imap|].
  intros i call Hi. exists (tool_of_call n i call).
  split; [|done]. rewrite list_lookup_imap, Hi. reflexivity.
Qed.

(** *** Message options *)



(** A chunk of the chat stream is made of one response of the vendor. *)
Lemma chat_chunk_ok (r : Response) (n n' : nat) (c : Chunk) :
  chat_chunk uuid r n = (Ok c, n') ->
  chunk_raw c = r
  /\ text r = Ok (delta c)
  /\ exists tools, getTools r n = (Ok tools, n')
                 /\ chunk_options c = options_of_tools tools.
Proof.
  unfold chat_chunk, bind at 1.
  destruct (getTools r n) as [[tools|m] n1] eqn:Htools; [|discriminate].
  unfold bind, GeminiSession_getResponseText, lift, ret.
  destruct (text r) as [d|m]; [|discriminate].
  intros [= <- <-]. simpl. eauto.
Qed.


(** The converted stream follows the given stream element by element. *)
Lemma streamConverter_prefix {S D} (R : S -> D -> Prop) (items : list S)
    (ending : option string) (converter : S -> M D) (n : nat) :
  (forall data k d k', converter data k = (Ok d, k') -> R data d) ->
  let g := fst (streamConverter items ending converter n) in
  Forall2 R (take (length (yielded g)) items) (yielded g).
Proof.
  intros Hconv. revert n. induction items as [|data rest IH]; intros n; simpl.
  - constructor.
  - destruct (converter data n) as [[d|m] n1] eqn:Hd; simpl; [|constructor].
    specialize (IH n1).
    destruct (streamConverter rest ending converter n1) as [g n2]. simpl in *.
    constructor; [by eapply Hconv | exact IH].
Qed.

(** A stream whose elements all convert is converted whole, and ends as the
    given stream ends. *)
Lemma streamConverter_total {S D} (items : list S) (ending : option string)
    (converter : S -> M D) (n : nat) :
  Forall (fun data => forall k, is_ok (fst (converter data k)) = true) items ->
  let g := fst (streamConverter items ending converter n) in
  length (yielded g) = length items /\ thrown g = ending.
Proof.
  intros Hok. revert n.
  induction Hok as [|data rest Hd _ IH]; intros n; simpl; [done|].
  specialize (Hd n).
  destruct (converter data n) as [[d|m] n1]; [|discriminate Hd].
  destruct (IH n1) as [Hlen Hend].
  destruct (streamConverter rest ending converter n1) as [g n2]. simpl in *.
  split; [by rewrite Hlen | done].
Qed.

(** The converter of the chat stream returns a chunk whenever the two
    accessors of the response return. *)
Lemma chat_chunk_returns (r : Response) (k : nat) :
  is_ok (text r) = true -> is_ok (functionCalls r) = true ->
  is_ok (fst (chat_chunk uuid r k)) = true.
Proof.
  intros Htext Hcalls. unfold chat_chunk, bind at 1.
  rewrite getToolsFromResponse_cases.
  destruct (functionCalls r) as [[calls|]|]; [| |discriminate Hcalls];
    unfold bind, GeminiSession_getResponseText, lift, ret;
    (destruct (text r); [reflexivity | discriminate Htext]).
Qed.

(** The metadata getter returns for every model. *)
Lemma metadata_returns (this : GeminiLLM) : is_ok (metadata this) = true.
Proof. unfold metadata. by destruct (model this). Qed.

(** [nonStreamChat] returns when each of its steps does. *)
Lemma nonStreamChat_returns (this : GeminiLLM) (params : Params) (n n1 n2 : nat)
    context md start result top rest tools txt :
  getChatContext params = Ok context ->
  metadata this = Ok md ->
  createStartChatParams DEFAULT_SAFETY_SETTINGS
    mapBaseToolToGeminiFunctionDeclaration getChatContext params = Ok start ->
  sendMessage (startChat (getGenerativeModel (session this) md) start)
              (ctx_message context) = Ok result ->
  candidates (response result) = Some (top :: rest) ->
  getToolsFromResponse (session this) (response result) n = (Ok tools, n1) ->
  getResponseText (session this) (response result) n1 = (Ok txt, n2) ->
  nonStream this params n
  = (Ok {| raw := response result;
           message := {| content := txt;
                         role := ROLES_FROM_GEMINI (content_role top);
                         options := options_of_tools tools |} |}, n2).
Proof.
  intros Hctx Hmd Hstart Hsend Hcands Htools Htext.
  unfold nonStreamChat, bind, lift, ret, throw.
  by rewrite Hctx, Hmd, Hstart, Hsend, Hcands, Htools, Htext.
Qed.

(** The successful runs of [nonStreamChat], step by step. *)
Lemma nonStreamChat_ok (this : GeminiLLM) (params : Params) (n n' : nat)
    (r : NonStreamResponse) :
  nonStream this params n = (Ok r, n') ->
  exists context md start result top rest tools n1,
    getChatContext params = Ok context
    /\ metadata this = Ok md
    /\ createStartChatParams DEFAULT_SAFETY_SETTINGS
         mapBaseToolToGeminiFunctionDeclaration getChatContext params = Ok start
    /\ sendMessage (startChat (getGenerativeModel (session this) md) start)
                   (ctx_message context) = Ok result
    /\ candidates (response result) = Some (top :: rest)
    /\ getToolsFromResponse (session this) (response result) n = (Ok tools, n1)
    /\ getResponseText (session this) (response result) n1
       = (Ok (content (message r)), n')
    /\ r = {| raw := response result;
              message := {| content := content (message r);
                            role := ROLES_FROM_GEMINI (content_role top);
                            options := options_of_tools tools |} |}.
Proof.
  unfold nonStreamChat, bind, lift, ret, throw.
  destruct (getChatContext params) as [context|] eqn:Hctx; [|discriminate].
  destruct (metadata this) as [md|] eqn:Hmd; [|discriminate].
  destruct (createStartChatParams _ _ _ params) as [start|] eqn:Hstart;
    [|discriminate].
  destruct (sendMessage _ _) as [result|] eqn:Hsend; [|discriminate].
  destruct (candidates (response result)) as [cands|] eqn:Hcands; [|discriminate].
  destruct (getToolsFromResponse _ _ n) as [[tools|] n1] eqn:Htools; [|discriminate].
  destruct (getResponseText _ _ n1) as [[txt|] n2] eqn:Htext; [|discriminate].
  destruct cands as [|top rest]; simpl; [discriminate|].
  intros [= <- <-]. simpl.
  exists context, md, start, result, top, rest, tools, n1.
  repeat split; done.
Qed.


Lemma createStartChatParams_returns (params : Params) context :
  getChatContext params = Ok context ->
  exists start,
    createStartChatParams DEFAULT_SAFETY_SETTINGS
      mapBaseToolToGeminiFunctionDeclaration getChatContext params = Ok start
    /\ history start = ctx_history context.
Proof.
  intros Hctx. unfold createStartChatParams. rewrite Hctx.
  destruct (tools params) as [[|tool rest]|]; eexists; split; reflexivity.
Qed.

(** C7: [chat] looks at the stream flag only. With the flag set it returns
    the generator of [streamChat]: the chat stream the session makes of the
    stream the vendor's [sendMessageStream] returns for the message of the
    chat context, in a chat started with the history of that context (or a
    generator that throws what the chat context or the vendor threw); for a
    [GeminiSession] the chunks follow the vendor's responses one by one,
    each delta being the text of its response, and there is a chunk for
    every response when the accessors of each return. With the flag unset
    it returns the outcome of [nonStreamChat]: for the response the
    vendor's [sendMessage] returns, the single response whose raw is that
    response and whose message content is the text the session extracts
    from it. *)
Theorem chat_dispatches_on_stream (this : GeminiLLM) (params : Params) (n : nat) :
  (stream_flag params = Some true ->
     chatting this params n
     = (Streaming (fst (streaming this params n)), snd (streaming this params n)))
  /\ (stream_flag params = Some false \/ stream_flag params = None ->
       chatting this params n
       = (NonStreaming (fst (nonStream this params n)),
          snd (nonStream this params n)))
  /\ (forall m,
        getChatContext params = Throw m ->
        streamChat DEFAULT_SAFETY_SETTINGS mapBaseToolToGeminiFunctionDeclaration
          getChatContext this params n
        = ({| yielded := []; thrown := Some m |}, n))
  /\ (forall context,
        getChatContext params = Ok context ->
        exists md start,
          metadata this = Ok md
          /\ createStartChatParams DEFAULT_SAFETY_SETTINGS
               mapBaseToolToGeminiFunctionDeclaration getChatContext params
             = Ok start
          /\ history start = ctx_history context
          /\ (forall m,
                sendMessageStream
                  (startChat (getGenerativeModel (session this) md) start)
                  (ctx_message context) = Throw m ->
                streamChat DEFAULT_SAFETY_SETTINGS
                  mapBaseToolToGeminiFunctionDeclaration getChatContext
                  this params n
                = ({| yielded := []; thrown := Some m |}, n))
          /\ (forall result,
                sendMessageStream
                  (startChat (getGenerativeModel (session this) md) start)
                  (ctx_message context) = Ok result ->
                streamChat DEFAULT_SAFETY_SETTINGS
                  mapBaseToolToGeminiFunctionDeclaration getChatContext
                  this params n
                = getChatStream (session this) result n)
          /\ (forall result top rest tools n1 txt n2,
                sendMessage
                  (startChat (getGenerativeModel (session this) md) start)
                  (ctx_message context) = Ok result ->
                candidates (response result) = Some (top :: rest) ->
                getToolsFromResponse (session this) (response result) n
                = (Ok tools, n1) ->
                getResponseText (session this) (response result) n1
                = (Ok txt, n2) ->
                nonStreamChat DEFAULT_SAFETY_SETTINGS
                  mapBaseToolToGeminiFunctionDeclaration ROLES_FROM_GEMINI
                  getChatContext this params n
                = (Ok {| raw := response result;
                         message :=
                           {| content := txt;
                              role := ROLES_FROM_GEMINI (content_role top);
                              options := options_of_tools tools |} |}, n2)))
  /\ (forall (result : StreamResult) (k : nat),
        let g := fst (getStream result k) in
        Forall2 (fun (r : Response) (c : Chunk) => chunk_raw c = r /\ text r = Ok (delta c))
                (take (length (yielded g)) (yielded (stream result)))
                (yielded g))
  /\ (forall (result : StreamResult) (k : nat),
        Forall (fun r : Response =>
                  is_ok (text r) = true /\ is_ok (functionCalls r) = true)
               (yielded (stream result)) ->
        length (yielded (fst (getStream result k)))
        = length (yielded (stream result))
        /\ thrown (fst (getStream result k)) = thrown (stream result))
  /\ (forall r n',
        nonStream this params n = (Ok r, n') ->
        exists context md start result n1,
          getChatContext params = Ok context
          /\ metadata this = Ok md
          /\ createStartChatParams DEFAULT_SAFETY_SETTINGS
               mapBaseToolToGeminiFunctionDeclaration getChatContext params
             = Ok start
          /\ sendMessage
               (startChat (getGenerativeModel (session this) md) start)
               (ctx_message context) = Ok result
          /\ raw r = response result
          /\ getResponseText (session this) (raw r) n1
             = (Ok (content (message r)), n')).
Proof.
  split; [intros Hs; unfold chat; rewrite Hs; simpl;
          by destruct (streaming this params n)|].
  split; [intros [Hs|Hs]; unfold chat; rewrite Hs; simpl;
          by destruct (nonStream this params n)|].
  split; [intros m Hm; unfold streamChat, streamChat_result; by rewrite Hm|].
  split.
  { intros context Hctx.
    pose proof (metadata_returns this) as Hmd.
    destruct (metadata this) as [md|] eqn:Hm; [|discriminate].
    destruct (createStartChatParams_returns params context Hctx)
      as (start & Hstart & Hhistory).
    exists md, start. split; [done|]. split; [done|]. split; [done|].
    split; [|split].
    - intros m Hsend. unfold streamChat, streamChat_result.
      by rewrite Hctx, Hm, Hstart, Hsend.
    - intros result Hsend. unfold streamChat, streamChat_result.
      by rewrite Hctx, Hm, Hstart, Hsend.
    - intros result top rest tools n1 txt n2 Hsend Hcands Htools Htext.
      by apply (nonStreamChat_returns this params n n1 n2 context md start
                  result top rest tools txt). }
  split; [|split].
  - intros result k. unfold GeminiSession_getChatStream.
    apply (streamConverter_prefix
             (fun (r : Response) (c : Chunk) => chunk_raw c = r /\ text r = Ok (delta c))).
    intros data j c j' Hc.
    apply chat_chunk_ok in Hc as (Hraw & Htext & _). done.
  - intros result k Hall. unfold GeminiSession_getChatStream.
    apply streamConverter_total.
    eapply Forall_impl; [exact Hall|].
    intros r [Htext Hcalls] j. by apply chat_chunk_returns.
  - intros r n' Hr.
    apply nonStreamChat_ok in Hr
      as (context & md & start & result & top & rest & tools & n1
          & Hctx & Hmd & Hstart & Hsend & _ & _ & Htext & ->).
    exists context, md, start, result, n1. simpl. done.
Qed.

End Translation.

(** *** A run of the translation *)

Definition sample_uuid (n : nat) : string :=
  match n with
  | 0 => "uuid-0"
  | 1 => "uuid-1"
  | _ => "uuid-n"
  end.

(** A response with text and no function call. *)
Definition text_response : @EnhancedGenerateContentResponse string string :=
  {| text := Ok "Hello";
     functionCalls := Ok None;
     candidates := Some [ {| content_role := "model" |} ] |}.

(** A response with one function call. *)
Definition tool_response : @EnhancedGenerateContentResponse string string :=
  {| text := Ok "";
     functionCalls := Ok (Some [ {| call_name := "search"; call_args := "{q: 1}" |} ]);
     candidates := Some [ {| content_role := "model" |} ] |}.

(** A response whose list of function calls is empty. *)
Definition empty_calls_response : @EnhancedGenerateContentResponse string string :=
  {| text := Ok "none";
     functionCalls := Ok (Some []);
     candidates := Some [ {| content_role := "model" |} ] |}.

(** A vendor client that answers every message with [reply], and every
    streamed message with [replies]. *)
Definition sample_client
    (reply : @EnhancedGenerateContentResponse string string)
    (replies : list (@EnhancedGenerateContentResponse string string))
    (_ : list unit) (_ : @LLMMetadata string)
    : @GoogleGenerativeModel string string string unit string string :=
  {| startChat := fun _ =>
       {| sendMessage := fun _ => Ok {| response := reply |};
          sendMessageStream := fun _ =>
            Ok {| stream := {| yielded := replies; thrown := None |} |} |} |}.

Definition sample_gemini
    (reply : @EnhancedGenerateContentResponse string string)
    (replies : list (@EnhancedGenerateContentResponse string string))
    : @Gemini string string string unit string string string :=
  {| model := GEMINI_PRO;
     temperature := "0.1";
     topP := "1";
     maxTokens := None;
     session := GeminiSession sample_uuid [] (sample_client reply replies) |}.

Definition sample_context (params : @ChatParams string string)
    : result (@ChatContext string string) :=
  Ok {| ctx_message := messages params; ctx_history := [] |}.

Definition sample_params (flag : option bool) : @ChatParams string string :=
  {| messages := ["What is new?"]; stream_flag := flag; tools := None |}.

Definition sample_roles (role : string) : string :=
  if decide (role = "model") then "assistant" else role.

Definition sample_nonStreamChat
    (this : @Gemini string string string unit string string string)
    (params : @ChatParams string string) :=
  nonStreamChat [] (fun tool : string => tool) sample_roles sample_context
                this params.

Definition sample_streamChat
    (this : @Gemini string string string unit string string string)
    (params : @ChatParams string string) :=
  streamChat [] (fun tool : string => tool) sample_context this params.

Definition sample_chat
    (this : @Gemini string string string unit string string string)
    (params : @ChatParams string string) :=
  chat [] (fun tool : string => tool) sample_roles sample_context this params.

Lemma GeminiSession_extracts_text_and_tools_witness :
  GeminiSession_getResponseText text_response 0 = (Ok "Hello", 0)
  /\ GeminiSession_getToolsFromResponse sample_uuid text_response 0 = (Ok None, 0)
  /\ exists tools,
       GeminiSession_getToolsFromResponse sample_uuid tool_response 0
       = (Ok (Some tools), 1)
       /\ length tools = 1.
Proof.
  destruct (GeminiSession_extracts_text_and_tools
              (Args := string) (GeminiMessageRole := string) sample_uuid)
    as (Htext & Hnone & Hsome & _).
  split; [exact (Htext text_response 0)|].
  split; [exact (Hnone text_response 0 eq_refl)|].
  destruct (Hsome tool_response 0 _ eq_refl) as (tools & Hget & Hlen & _).
  exists tools. split; [exact Hget | exact Hlen].
Defined.

Example getToolsFromResponse_run :
  GeminiSession_getToolsFromResponse sample_uuid tool_response 0
  = (Ok (Some [ {| name := "search"; input := "{q: 1}"; id := "uuid-0" |} ]), 1).
Proof. reflexivity. Qed.

(** An empty list of function calls gives an empty list of tool calls. *)
Example getToolsFromResponse_empty_run :
  GeminiSession_getToolsFromResponse sample_uuid empty_calls_response 0
  = (Ok (Some []), 0).
Proof. reflexivity. Qed.


Example nonStreamChat_empty_calls_run :
  sample_nonStreamChat (sample_gemini empty_calls_response []) (sample_params None) 0
  = (Ok {| raw := empty_calls_response;
           message := {| content := "none"; role := "assistant";
                         options := empty_options |} |}, 0).
Proof. reflexivity. Qed.


Example chat_stream_run :
  sample_chat (sample_gemini text_response [text_response; tool_response])
              (sample_params (Some true)) 0
  = (Streaming
       {| yielded :=
            [ {| delta := "Hello"; chunk_raw := text_response;
                 chunk_options := empty_options |};
              {| delta := ""; chunk_raw := tool_response;
                 chunk_options :=
                   {| toolCall := Some [ {| name := "search"; input := "{q: 1}";
                                            id := "uuid-0" |} ] |} |} ];
          thrown := None |}, 1).
Proof. reflexivity. Qed.

Lemma chat_dispatches_on_stream_witness :
  sample_chat (sample_gemini text_response [text_response; tool_response])
              (sample_params (Some true)) 0
  = (Streaming
       {| yielded :=
            [ {| delta := "Hello"; chunk_raw := text_response;
                 chunk_options := empty_options |};
              {| delta := ""; chunk_raw := tool_response;
                 chunk_options :=
                   {| toolCall := Some [ {| name := "search"; input := "{q: 1}";
                                            id := "uuid-0" |} ] |} |} ];
          thrown := None |}, 1)
  /\ sample_chat (sample_gemini text_response []) (sample_params None) 0
     = (NonStreaming
          (Ok {| raw := text_response;
                 message := {| content := "Hello"; role := "assistant";
                               options := empty_options |} |}), 0).
Proof.
  split.
  - destruct (chat_dispatches_on_stream sample_uuid []
                (fun tool : string => tool) sample_roles sample_context
                (sample_gemini text_response [text_response; tool_response])
                (sample_params (Some true)) 0)
      as (Hstream & _ & _ & Hvendor & _).
    destruct (Hvendor _ eq_refl) as (md & start & _ & _ & _ & _ & Hsend & _).
    etrans; [exact (Hstream eq_refl)|].
    rewrite (Hsend {| stream := {| yielded := [text_response; tool_response];
                                   thrown := None |} |} eq_refl).
    reflexivity.
  - destruct (chat_dispatches_on_stream sample_uuid []
                (fun tool : string => tool) sample_roles sample_context
                (sample_gemini text_response []) (sample_params None) 0)
      as (_ & Hnon & _ & Hvendor & _).
    destruct (Hvendor _ eq_refl) as (md & start & _ & _ & _ & _ & _ & Hsend).
    etrans; [exact (Hnon (or_intror eq_refl))|].
    rewrite (Hsend {| response := text_response |} {| content_role := "model" |}
               [] None 0 "Hello" 0 eq_refl eq_refl eq_refl eq_refl).
    reflexivity.
Defined.

End ChatSpec.

Module ContextAwareSpec.
Import Js ContextAware.

Section Agent.

Context {Detail MessageOptions BaseNode MetadataMode Params Response Base : Type}.

Variable NONE : MetadataMode.
Variable getContent : BaseNode -> MetadataMode -> string.
Variable message : Params -> MessageContent Detail.
Variable stream_is_true : Params -> bool.

Local Abbreviation Agent :=
  (@ContextAwareAgent Detail MessageOptions BaseNode Base).
Local Abbreviation Message := (@ChatMessage Detail MessageOptions).

Variable super_chat : Params -> Agent -> result Response * Agent.

Local Abbreviation chatting :=
  (chat NONE getContent message stream_is_true super_chat).

(** The context made of the retrieved nodes. *)
Definition context_of (nodes : list (@NodeWithScore BaseNode)) : string :=
  join newline (map (fun n => getContent (node n) NONE) nodes).

(** The history refers to allocated message objects only. *)
Definition well_formed (this : Agent) : Prop :=
  Forall (fun r => r < length (heap this)) (chatHistory this).

(** The message behind [r] is the first one of the history with role
    "system". *)
Definition first_system (this : Agent) (r : ref) : Prop :=
  exists pre post,
    chatHistory this = (pre ++ r :: post)%list
    /\ Forall (fun r' => role (heap this !!! r') <> "system") pre
    /\ role (heap this !!! r) = "system".

Definition no_system (this : Agent) : Prop :=
  Forall (fun r => role (heap this !!! r) <> "system") (chatHistory this).

Lemma find_system_first (this : Agent) (r : ref) :
  first_system this r ->
  List.find (is_system this) (chatHistory this) = Some r.
Proof.
  intros (pre & post & -> & Hpre & Hr).
  induction Hpre as [|r' pre Hr' _ IH]; simpl.
  - unfold is_system. by rewrite bool_decide_eq_true_2.
  - unfold is_system at 1. by rewrite bool_decide_eq_false_2.
Qed.

Lemma find_system_none (this : Agent) :
  no_system this -> List.find (is_system this) (chatHistory this) = None.
Proof.
  unfold no_system. induction 1 as [|r' l Hr' _ IH]; simpl; [done|].
  unfold is_system at 1. by rewrite bool_decide_eq_false_2.
Qed.

(** With a system message, [injectContext] rewrites the content of that
    message object and nothing else. *)
Lemma injectContext_system (context : string) (this : Agent) (r : ref) :
  well_formed this -> first_system this r ->
  let this' := injectContext context this in
  chatHistory this' = chatHistory this
  /\ length (heap this') = length (heap this)
  /\ heap this' !!! r
     = {| role := "system";
          content := Text (context ++ newline ++ newline
                           ++ to_string (content (heap this !!! r)));
          options := options (heap this !!! r) |}
  /\ (forall r', r' <> r -> heap this' !! r' = heap this !! r').
Proof.
  intros Hwf Hfirst. unfold injectContext.
  rewrite (find_system_first this r Hfirst). simpl.
  assert (r < length (heap this)) as Hr.
  { destruct Hfirst as (pre & post & Hh & _ & _).
    unfold well_formed in Hwf. rewrite Hh in Hwf.
    apply Forall_app in Hwf as [_ Hwf]. by apply Forall_cons in Hwf as [? _]. }
  split; [done|]. split; [apply length_insert|].
  split.
  - rewrite list_lookup_total_insert_eq by done.
    destruct Hfirst as (_ & _ & _ & _ & ->). done.
  - intros r' Hne. by rewrite list_lookup_insert_ne.
Qed.

(** Without one, it allocates a system message that holds the context and
    puts it in front of the history. *)
Lemma injectContext_no_system (context : string) (this : Agent) :
  no_system this ->
  let this' := injectContext context this in
  chatHistory this' = length (heap this) :: chatHistory this
  /\ heap this'
     = (heap this
        ++ [ {| role := "system"; content := Text context; options := None |} ])%list.
Proof.
  intros Hno. unfold injectContext. by rewrite (find_system_none this Hno).
Qed.

Lemma system_cases (this : Agent) :
  (exists r, first_system this r) \/ no_system this.
Proof.
  unfold first_system, no_system.
  induction (chatHistory this) as [|r l IH].
  - right. constructor.
  - destruct (decide (role (heap this !!! r) = "system")) as [Hr|Hr].
    + left. exists r, [], l. repeat split; [constructor | done].
    + destruct IH as [(r' & pre & post & -> & Hpre & Hr') | Hno].
      * left. exists r', (r :: pre), post. repeat split; [by constructor | done].
      * right. by constructor.
Qed.

(** X22: [chat] retrieves the context for [params.message] (the contents of
    the retrieved nodes joined by line feeds), injects it, and only then
    calls the chat method of the wrapped agent, with the same parameters.
    If the history holds a message with role "system", the first such
    message is the one written to and nothing else changes; when its
    content is a string, the content becomes the context, two line feeds
    and the previous content, in that order; when its content is an array
    of details, the content becomes the context, two line feeds and the
    text "[object Object]" once for each detail, separated by commas. If
    the history holds no message with role "system", a new message with
    role "system" whose content is the context is put at the front of the
    history. *)
Theorem chat_injects_context_then_delegates
    (params : Params) (this : Agent) (nodes : list (@NodeWithScore BaseNode)) :
  well_formed this ->
  retrieve (contextRetriever this) (message params) = Ok nodes ->
  exists this',
    chatting params this = super_chat params this'
    /\ contextRetriever this' = contextRetriever this
    /\ retrievedContext this' = retrievedContext this
    /\ base this' = base this
    /\ ((exists r, first_system this r) \/ no_system this)
    /\ (forall r, first_system this r ->
          chatHistory this' = chatHistory this
          /\ length (heap this') = length (heap this)
          /\ role (heap this' !!! r) = "system"
          /\ (forall s, content (heap this !!! r) = Text s ->
                content (heap this' !!! r)
                = Text (context_of nodes ++ newline ++ newline ++ s))
          /\ (forall parts, content (heap this !!! r) = Details parts ->
                content (heap this' !!! r)
                = Text (context_of nodes ++ newline ++ newline
                        ++ join "," (map (fun _ => "[object Object]") parts)))
          /\ options (heap this' !!! r) = options (heap this !!! r)
          /\ (forall r', r' <> r -> heap this' !! r' = heap this !! r'))
    /\ (no_system this ->
          exists r,
            chatHistory this' = r :: chatHistory this
            /\ heap this !! r = None
            /\ heap this' !! r
               = Some {| role := "system"; content := Text (context_of nodes);
                         options := None |}
            /\ (forall r', r' <> r -> heap this' !! r' = heap this !! r')).
Proof.
  intros Hwf Hret. exists (injectContext (context_of nodes) this).
  split.
  { unfold chat, retrieveContext. rewrite Hret. fold (context_of nodes).
    by destruct (stream_is_true params). }
  split; [unfold injectContext; by destruct (List.find _ _)|].
  split; [unfold injectContext; by destruct (List.find _ _)|].
  split; [unfold injectContext; by destruct (List.find _ _)|].
  split; [apply system_cases|].
  split.
  - intros r Hr.
    destruct (injectContext_system (context_of nodes) this r Hwf Hr)
      as (Hh & Hlen & Hmsg & Hother).
    rewrite Hmsg. simpl.
    split; [done|]. split; [done|]. split; [done|].
    split; [intros s ->; done|]. split; [intros parts ->; done|]. split; done.
  - intros Hno.
    destruct (injectContext_no_system (context_of nodes) this Hno) as (Hh & Hheap).
    exists (length (heap this)). rewrite Hh, Hheap.
    split; [done|]. split; [by apply lookup_ge_None_2|].
    split; [by rewrite list_lookup_middle|].
    intros r' Hne.
    destruct (decide (r' < length (heap this))) as [Hlt|Hge].
    + by rewrite lookup_app_l.
    + rewrite lookup_app_r by lia.
      rewrite (lookup_ge_None_2 (heap this)) by lia.
      apply lookup_ge_None_2. simpl. lia.
Qed.

End Agent.

(** *** A run of the agent *)

Definition sample_retriever : @BaseRetriever unit string :=
  {| retrieve := fun _ => Ok [ {| node := "doc A" |}; {| node := "doc B" |} ] |}.

(** An agent whose history is a user message followed by a system message. *)
Definition sample_agent : @ContextAwareAgent unit unit string unit :=
  {| heap := [ {| role := "user"; content := Text "hi"; options := None |};
               {| role := "system"; content := Text "Be brief."; options := None |} ];
     chatHistory := [0; 1];
     contextRetriever := sample_retriever;
     retrievedContext := None;
     base := tt |}.

(** An agent whose history has no system message. *)
Definition sample_agent_no_system : @ContextAwareAgent unit unit string unit :=
  {| heap := [ {| role := "user"; content := Text "hi"; options := None |} ];
     chatHistory := [0];
     contextRetriever := sample_retriever;
     retrievedContext := None;
     base := tt |}.

(** A wrapped agent that answers and leaves the state as it gets it. *)
Definition sample_super (params : string)
    (this : @ContextAwareAgent unit unit string unit)
    : result string * @ContextAwareAgent unit unit string unit :=
  (Ok "answer", this).

Definition sample_chat :=
  chat tt (fun (n : string) (_ : unit) => n) (fun q : string => Text q)
       (fun _ : string => false) sample_super.

Lemma chat_injects_context_then_delegates_witness :
  exists this',
    sample_chat "question" sample_agent = sample_super "question" this'
    /\ chatHistory this' = [0; 1]
    /\ content (heap this' !!! 1)
       = Text ("doc A" ++ newline ++ "doc B" ++ newline ++ newline ++ "Be brief.").
Proof.
  assert (well_formed sample_agent) as Hwf
    by (repeat constructor; simpl; lia).
  assert (first_system sample_agent 1) as Hfirst.
  { exists [0], []. split; [reflexivity|]. split; [|reflexivity].
    constructor; [discriminate | constructor]. }
  destruct (chat_injects_context_then_delegates tt (fun (n : string) (_ : unit) => n)
              (fun q : string => Text q) (fun _ : string => false) sample_super
              "question" sample_agent
              [ {| node := "doc A" |}; {| node := "doc B" |} ] Hwf eq_refl)
    as (this' & Hchat & _ & _ & _ & _ & Hsys & _).
  exists this'. split; [exact Hchat|].
  destruct (Hsys 1 Hfirst) as (Hh & _ & _ & Hc & _).
  split; [exact Hh | exact (Hc "Be brief." eq_refl)].
Defined.

(** Without a system message the context comes first in the history. *)
Example chat_no_system_run :
  sample_chat "question" sample_agent_no_system
  = (Ok "answer",
     {| heap := [ {| role := "user"; content := Text "hi"; options := None |};
                  {| role := "system";
                     content := Text ("doc A" ++ newline ++ "doc B");
                     options := None |} ];
        chatHistory := [1; 0];
        contextRetriever := sample_retriever;
        retrievedContext := None;
        base := tt |}).
Proof. reflexivity. Qed.

(** An agent whose system message has an array of two detail objects as
    its content (say a text part and an image part). *)
Definition sample_agent_details : @ContextAwareAgent unit unit string unit :=
  {| heap := [ {| role := "system"; content := Details [tt; tt]; options := None |};
               {| role := "user"; content := Text "hi"; options := None |} ];
     chatHistory := [0; 1];
     contextRetriever := sample_retriever;
     retrievedContext := None;
     base := tt |}.

(** C1 at that input: the previous content of the system message is the
    array of two details, and the content [chat] hands to the wrapped agent
    is the context, two line feeds and the text
    "[object Object],[object Object]": the template literal turned the
    array into a string, and the details are gone. *)
Theorem chat_array_content_is_stringified :
  content (heap sample_agent_details !!! 0) = Details [tt; tt]
  /\ sample_chat "question" sample_agent_details
     = (Ok "answer",
        {| heap := [ {| role := "system";
                        content := Text ("doc A" ++ newline ++ "doc B"
                                         ++ newline ++ newline
                                         ++ "[object Object],[object Object]");
                        options := None |};
                     {| role := "user"; content := Text "hi"; options := None |} ];
           chatHistory := [0; 1];
           contextRetriever := sample_retriever;
           retrievedContext := None;
           base := tt |}).
Proof. split; reflexivity. Qed.

End ContextAwareSpec.

(** * Further properties of the session store *)

Module SessionMore.
Import Js Models Session SessionSpec.

(** The constructor either throws, leaving the session objects and the
    store as they were, or returns the next session object. *)
Lemma GeminiSession_new_shape (o : ref) (w : World) :
  (exists m w', GeminiSession_new o w = (Throw m, w')
     /\ session_heap w' = session_heap w /\ sessions w' = sessions w
     /\ GOOGLE_API_KEY w' = GOOGLE_API_KEY w)
  \/ (exists k w', GeminiSession_new o w = (Ok (length (session_heap w)), w')
        /\ session_heap w'
           = (session_heap w ++ [GeminiSessionObject {| client_apiKey := k |}])%list
        /\ sessions w' = sessions w
        /\ GOOGLE_API_KEY w' = GOOGLE_API_KEY w).
Proof.
  unfold GeminiSession_new.
  destruct (falsy (apiKey (deref w o)));
    match goal with
    | |- context [apiKey (deref ?w1 o)] =>
        destruct (apiKey (deref w1 o)) as [k|]
    end;
    try (left; do 2 eexists; split; [reflexivity | done]);
    (destruct (decide (k = ""));
       [left; do 2 eexists; split; [reflexivity | done]
       |right; exists k; eexists; split; [reflexivity | done]]).
Qed.

(** X3: [get] only ever appends to the store. A call that returns leaves a
    store that holds the returned session, and it either left the store as
    it was or appended one entry for a newly built session; a call that
    throws leaves the store and the session objects as they were. *)
Theorem get_appends_at_most_one (o : ref) (w : World) :
  (forall s w', get o w = (Ok s, w') ->
     (exists e, In e (sessions w') /\ session e = s)
     /\ ((w' = w /\ exists e, In e (sessions w) /\ session e = s)
         \/ (sessions w' = (sessions w ++ [ {| session := s; options := o |} ])%list
             /\ s = length (session_heap w)
             /\ length (session_heap w') = S (length (session_heap w)))))
  /\ (forall m w', get o w = (Throw m, w') ->
        sessions w' = sessions w /\ session_heap w' = session_heap w)
  /\ (exists added, sessions (snd (get o w)) = (sessions w ++ added)%list
                    /\ length added <= 1).
Proof.
  destruct (get_cases w o) as [Hall | (pre & e & post & Hs & Hpre & He)].
  - rewrite (get_miss w o Hall).
    destruct (backend (deref w o)).
    + destruct (GeminiSession_new_shape o w)
        as [(m & w1 & -> & Hh & Hst & _) | (k & w1 & -> & Hh & Hst & _)].
      * split; [intros s w' [=]|]. split; [intros m' w' [= <- <-]; done|].
        exists []. simpl. rewrite Hst, app_nil_r. split; [done | lia].
      * split.
        { intros s w' [= <- <-]. split.
          - exists {| session := length (session_heap w); options := o |}.
            split; [|reflexivity]. simpl. rewrite Hst.
            apply in_or_app. right. by left.
          - right. simpl. rewrite Hst, Hh, length_app. simpl.
            split; [done|]. split; [done | lia]. }
        split; [intros m' w' [=]|].
        eexists. simpl. rewrite Hst. split; [reflexivity | simpl; lia].
    + split; [intros s w' [=]|]. split; [intros m' w' [= <- <-]; done|].
      exists []. simpl. rewrite app_nil_r. split; [done | lia].
  - rewrite (get_hit w o pre e post Hs Hpre He).
    assert (In e (sessions w)) as Hin
      by (rewrite Hs; apply in_or_app; right; by left).
    split.
    { intros s w' [= <- <-]. split; [eauto|]. left. eauto. }
    split; [intros m' w' [=]|].
    exists []. simpl. rewrite app_nil_r. split; [done | lia].
Qed.

(** X21: a caller that passes the same options object again is answered
    from the store: the second call builds nothing and leaves the world as
    it is. Its session is the session of the first call when the first call
    was answered from the store, or when no older entry has the session id
    the options object has after the first call; when an older entry has
    that id, it is the session of the first such entry. *)
Theorem get_same_object_again (o : ref) (w w1 : World) (s : ref) :
  get o w = (Ok s, w1) ->
  exists s',
    get o w1 = (Ok s', w1)
    /\ (w1 = w -> s' = s)
    /\ (Forall (fun e => id_at w1 (options e) <> id_at w1 o) (sessions w) ->
         s' = s)
    /\ (forall pre e post,
          sessions w = (pre ++ e :: post)%list ->
          Forall (fun e' => id_at w1 (options e') <> id_at w1 o) pre ->
          id_at w1 (options e) = id_at w1 o ->
          s' = session e).
Proof.
  intros Hget.
  assert (forall s' tail,
            get o w1 = (Ok s', w1) ->
            sessions w1 = (sessions w ++ tail)%list ->
            forall pre e post,
              sessions w = (pre ++ e :: post)%list ->
              Forall (fun e' => id_at w1 (options e') <> id_at w1 o) pre ->
              id_at w1 (options e) = id_at w1 o ->
              s' = session e) as Holder.
  { intros s' tail Hget1 Htail pre e post Hs Hpre He.
    assert (sessions w1 = (pre ++ e :: (post ++ tail))%list) as Hs1
      by (rewrite Htail, Hs, <- app_assoc; reflexivity).
    rewrite (get_hit w1 o pre e (post ++ tail) Hs1 Hpre He) in Hget1.
    by injection Hget1 as <-. }
  destruct (get_cases w o) as [Hall | (pre & e & post & Hs & Hpre & He)].
  - rewrite (get_miss w o Hall) in Hget.
    destruct (backend (deref w o)); [|discriminate].
    destruct (GeminiSession_new_shape o w)
      as [(m & w' & Hnew & _) | (k & w' & Hnew & Hh & Hst & _)];
      rewrite Hnew in Hget; [discriminate|].
    injection Hget as <- <-.
    set (w1 := push {| session := length (session_heap w); options := o |} w')
      in *.
    assert (sessions w1
            = (sessions w ++ [ {| session := length (session_heap w);
                                  options := o |} ])%list) as Hst1
      by (unfold w1; simpl; by rewrite Hst).
    destruct (get_cases w1 o) as [Hmiss | (pre & e & post & Hs & Hpre & He)].
    { rewrite Hst1 in Hmiss. apply Forall_app in Hmiss as [_ Hmiss].
      apply Forall_cons in Hmiss as [Hne _]. by destruct Hne. }
    pose proof (get_hit w1 o pre e post Hs Hpre He) as Hget1.
    exists (session e). split; [exact Hget1|].
    split; [|split].
    + intros Heq. exfalso. rewrite Heq in Hst1.
      apply (f_equal length) in Hst1. rewrite length_app in Hst1. simpl in Hst1. lia.
    + intros Hold. rewrite Hst1 in Hs.
      destruct post as [|e' post].
      * apply app_inj_tail in Hs as [_ <-]. reflexivity.
      * exfalso.
        assert (e ∈ sessions w) as Hin.
        { assert (length pre < length (sessions w)) as Hlt.
          { apply (f_equal length) in Hs. rewrite !length_app in Hs.
            simpl in Hs. lia. }
          apply (list_elem_of_lookup_2 _ (length pre)).
          rewrite <- (lookup_app_l _ [ {| session := length (session_heap w);
                                          options := o |} ]) by done.
          rewrite Hs. apply list_lookup_middle. done. }
        rewrite Forall_forall in Hold. by destruct (Hold e Hin).
    + exact (Holder (session e) _ Hget1 Hst1).
  - rewrite (get_hit w o pre e post Hs Hpre He) in Hget.
    injection Hget as <- <-.
    pose proof (get_hit w o pre e post Hs Hpre He) as Hget1.
    exists (session e). split; [exact Hget1|].
    split; [done|]. split; [done|].
    apply (Holder (session e) [] Hget1). by rewrite app_nil_r.
Qed.

(** A store that holds a session for the explicit key "K", which is also
    the key of the environment, and a caller's options without a key. *)
Definition keyed_then_keyless : World :=
  snd (get 0 {| GOOGLE_API_KEY := Some "K";
                options_heap := [ {| backend := GOOGLE; apiKey := Some "K" |};
                                  {| backend := GOOGLE; apiKey := None |} ];
                session_heap := [];
                sessions := [] |}).

(** There the first call builds session 1, and the same options object is
    then answered with session 0, the older entry of the same key. *)
Lemma get_same_object_again_witness :
  exists w1,
    get 1 keyed_then_keyless = (Ok 1, w1)
    /\ get 1 w1 = (Ok 0, w1).
Proof.
  destruct (get_same_object_again 1 keyed_then_keyless _ 1 eq_refl)
    as (s' & Hget & _ & _ & Hold).
  eexists. split; [reflexivity|].
  rewrite (Hold [] {| session := 0; options := 0 |} [] eq_refl
             ltac:(constructor) eq_refl) in Hget.
  exact Hget.
Defined.

(** There the second call returns the older session, not the one the first
    call built. *)
Example get_same_object_older_session_run :
  get 1 (snd (get 1 keyed_then_keyless))
  = (Ok 0, snd (get 1 keyed_then_keyless)).
Proof. reflexivity. Qed.

(** *** What the constructor leaves behind *)

Lemma options_eta (x : GeminiSessionOptions) :
  x = {| backend := backend x; apiKey := apiKey x |}.
Proof. by destruct x. Qed.

(** X4: after a successful construction the options object carries the key
    the client of the new session was built with. A non-empty apiKey of the
    options is that key, whatever the environment holds, and then no
    options object is written to; else the key is the one of the
    environment, written into this options object only. *)
Theorem GeminiSession_new_options_carry_key (o : ref) (w w' : World) (s : ref) :
  allocated w o ->
  GeminiSession_new o w = (Ok s, w') ->
  exists k,
    k <> ""
    /\ session_heap w' !! s = Some (GeminiSessionObject {| client_apiKey := k |})
    /\ deref w' o = {| backend := backend (deref w o); apiKey := Some k |}
    /\ (forall o', o' <> o -> deref w' o' = deref w o')
    /\ (falsy (apiKey (deref w o)) = false ->
          apiKey (deref w o) = Some k /\ options_heap w' = options_heap w)
    /\ (falsy (apiKey (deref w o)) = true -> GOOGLE_API_KEY w = Some k).
Proof.
  intros Ho Hnew.
  destruct (falsy (apiKey (deref w o))) eqn:Hopt;
    [destruct (falsy (GOOGLE_API_KEY w)) eqn:Henv|].
  - rewrite (GeminiSession_new_no_key w o Ho Hopt Henv) in Hnew. discriminate.
  - apply falsy_false in Henv as (k & Henv & Hne).
    rewrite (GeminiSession_new_from_env w o k Ho Hopt Henv Hne) in Hnew.
    injection Hnew as <- <-. exists k. simpl.
    split; [done|]. split; [by rewrite list_lookup_middle|].
    split; [by apply (deref_set_apiKey_eq w o (Some k))|].
    split; [intros o' Hne'; by apply (deref_set_apiKey_ne w o o' (Some k))|].
    split; [discriminate | done].
  - apply falsy_false in Hopt as (k & Hk & Hne).
    rewrite (GeminiSession_new_keyed w o k Hk Hne) in Hnew.
    injection Hnew as <- <-. exists k. simpl.
    split; [done|]. split; [by rewrite list_lookup_middle|].
    split; [change (deref w o = {| backend := backend (deref w o); apiKey := Some k |});
            rewrite <- Hk; apply options_eta|].
    split; [done|]. split; [done | discriminate].
Qed.

(** The key of the options wins over a different key of the environment. *)
Definition both_keys_world : World :=
  {| GOOGLE_API_KEY := Some "E";
     options_heap := [ {| backend := GOOGLE; apiKey := Some "K" |} ];
     session_heap := [];
     sessions := [] |}.

Lemma GeminiSession_new_options_carry_key_witness :
  exists k w',
    GeminiSession_new 0 both_keys_world = (Ok 0, w')
    /\ session_heap w' !! 0 = Some (GeminiSessionObject {| client_apiKey := k |})
    /\ (false = false -> Some "K" = Some k /\ options_heap w' = options_heap both_keys_world).
Proof.
  destruct (GeminiSession_new_options_carry_key 0 both_keys_world _ 0
              (le_n 1) eq_refl) as (k & _ & Hs & _ & _ & Hk & _).
  exists k. eexists. split; [reflexivity|]. split; [exact Hs | exact Hk].
Defined.

(** *** The invariant of a store filled by [get] alone *)

(** The entry holds Google options with a non-empty apiKey and a session
    whose client was built with that key. *)
Definition entry_consistent (w : World) (e : StoreEntry) : Prop :=
  exists k,
    k <> ""
    /\ allocated w (options e)
    /\ deref w (options e) = {| backend := GOOGLE; apiKey := Some k |}
    /\ session_heap w !! session e
       = Some (GeminiSessionObject {| client_apiKey := k |}).

(** Every entry is consistent, and the i-th entry holds the i-th session
    object: each session [get] built is stored, once, in the order built. *)
Definition store_consistent (w : World) : Prop :=
  Forall (entry_consistent w) (sessions w)
  /\ map session (sessions w) = seq 0 (length (session_heap w)).

Lemma entry_consistent_keyed (w : World) (e : StoreEntry) :
  entry_consistent w e -> falsy (apiKey (deref w (options e))) = false.
Proof.
  intros (k & Hne & _ & Hd & _). rewrite Hd. apply falsy_false. eauto.
Qed.

Lemma entry_consistent_alloc_options (v : GeminiSessionOptions) (w : World)
    (e : StoreEntry) :
  entry_consistent w e -> entry_consistent (snd (alloc_options v w)) e.
Proof.
  intros (k & Hne & Ho & Hd & Hs). exists k.
  unfold allocated, deref in *. simpl.
  rewrite length_app, lookup_total_app_l by done.
  repeat split; [done | lia | done | done].
Qed.

Lemma entry_consistent_set_apiKey (w : World) (o : ref) (v : option string)
    (e : StoreEntry) :
  falsy (apiKey (deref w o)) = true ->
  entry_consistent w e -> entry_consistent (set_apiKey o v w) e.
Proof.
  intros Hf He. pose proof (entry_consistent_keyed w e He) as Hk.
  destruct He as (k & Hne & Ho & Hd & Hs).
  assert (o <> options e) as Hneq by (intros ->; congruence).
  exists k. rewrite deref_set_apiKey_ne by done.
  repeat split; [done | | done | done].
  unfold allocated, set_apiKey. simpl. by rewrite length_insert.
Qed.

(** More session objects and the same options objects keep an entry
    consistent. *)
Lemma entry_consistent_grow (w w' : World) (more : list SessionObject)
    (e : StoreEntry) :
  options_heap w' = options_heap w ->
  session_heap w' = (session_heap w ++ more)%list ->
  entry_consistent w e -> entry_consistent w' e.
Proof.
  intros Hopts Hheap (k & Hne & Ho & Hd & Hs). exists k.
  unfold allocated, deref in *. rewrite Hopts, Hheap.
  repeat split; [done | done | done |].
  rewrite lookup_app_l; [done|]. by eapply lookup_lt_Some.
Qed.

Lemma store_consistent_push (w w0 : World) (o : ref) (k : string) :
  k <> "" -> allocated w0 o ->
  deref w0 o = {| backend := GOOGLE; apiKey := Some k |} ->
  sessions w0 = sessions w -> session_heap w0 = session_heap w ->
  Forall (entry_consistent w0) (sessions w) ->
  map session (sessions w) = seq 0 (length (session_heap w)) ->
  store_consistent
    (push {| session := length (session_heap w); options := o |}
       (snd (alloc_session (GeminiSessionObject {| client_apiKey := k |}) w0))).
Proof.
  intros Hne Ho Hd Hst Hheap Hall Hseq. split; simpl.
  - rewrite Hst. apply Forall_app. split.
    + eapply Forall_impl; [exact Hall|]. intros e He.
      by apply (entry_consistent_grow w0 _
                  [GeminiSessionObject {| client_apiKey := k |}]).
    + constructor; [|constructor]. exists k. simpl.
      repeat split; [done | done | done |].
      rewrite Hheap. by rewrite list_lookup_middle.
  - rewrite Hst, Hheap, map_app, length_app, Hseq. simpl.
    by rewrite Nat.add_1_r, seq_S.
Qed.

Lemma store_consistent_get (o : ref) (w : World) :
  allocated w o -> store_consistent w -> store_consistent (snd (get o w)).
Proof.
  intros Ho [Hall Hseq].
  destruct (get_cases w o) as [Hmiss | (pre & e & post & Hs & Hpre & He)];
    [|by rewrite (get_hit w o pre e post Hs Hpre He)].
  rewrite (get_miss w o Hmiss).
  destruct (backend (deref w o)) eqn:Hb; [|done].
  destruct (falsy (apiKey (deref w o))) eqn:Hopt;
    [destruct (falsy (GOOGLE_API_KEY w)) eqn:Henv|].
  - rewrite (GeminiSession_new_no_key w o Ho Hopt Henv). simpl.
    split; simpl; [|done].
    eapply Forall_impl; [exact Hall|]. intros e.
    by apply entry_consistent_set_apiKey.
  - apply falsy_false in Henv as (k & Henv & Hne).
    rewrite (GeminiSession_new_from_env w o k Ho Hopt Henv Hne). simpl.
    apply (store_consistent_push w (set_apiKey o (Some k) w) o k);
      [done| | |done|done| |done].
    + unfold allocated, set_apiKey. simpl. by rewrite length_insert.
    + rewrite deref_set_apiKey_eq by done. by rewrite Hb.
    + eapply Forall_impl; [exact Hall|]. intros e.
      by apply entry_consistent_set_apiKey.
  - apply falsy_false in Hopt as (k & Hk & Hne).
    rewrite (GeminiSession_new_keyed w o k Hk Hne). simpl.
    apply (store_consistent_push w w o k); [done|done| |done|done|done|done].
    rewrite (options_eta (deref w o)). by rewrite Hb, Hk.
Qed.

Lemma filled_by_get_store_consistent (w : World) :
  filled_by_get w -> store_consistent w.
Proof.
  induction 1 as [env objects | v w _ [IHall IHseq] | o w _ IH Ho].
  - split; [constructor | reflexivity].
  - split; simpl; [|done].
    eapply Forall_impl; [exact IHall|]. intros e.
    apply entry_consistent_alloc_options.
  - by apply store_consistent_get.
Qed.

(** X5: in a store filled by [get] alone, the i-th entry holds the i-th
    session object built, so the store has as many entries as sessions were
    built and no session is stored twice; every entry holds Google options
    with a non-empty apiKey, and the client of its session was built with
    that key. *)
Theorem filled_by_get_entries_consistent (w : World) :
  filled_by_get w ->
  map session (sessions w) = seq 0 (length (session_heap w))
  /\ length (sessions w) = length (session_heap w)
  /\ NoDup (map session (sessions w))
  /\ Forall (entry_consistent w) (sessions w).
Proof.
  intros Hw. destruct (filled_by_get_store_consistent w Hw) as [Hall Hseq].
  split; [done|]. split.
  - rewrite <- (length_map session), Hseq. apply length_seq.
  - split; [|done]. rewrite Hseq. apply NoDup_seq.
Qed.

(** Two lookups with the key of the environment (the world of C2). *)
Definition two_env_lookups : World :=
  snd (get 1 (snd (get 0 env_key_world))).

Lemma two_env_lookups_filled : filled_by_get two_env_lookups.
Proof.
  unfold two_env_lookups.
  apply filled_get; [apply filled_get; [apply filled_start|]|];
    unfold allocated; simpl; lia.
Qed.

Lemma filled_by_get_entries_consistent_witness :
  map session (sessions two_env_lookups) = [0; 1]
  /\ length (sessions two_env_lookups) = 2
  /\ NoDup (map session (sessions two_env_lookups))
  /\ Forall (entry_consistent two_env_lookups) (sessions two_env_lookups).
Proof.
  exact (filled_by_get_entries_consistent two_env_lookups two_env_lookups_filled).
Defined.

(** *** [new Gemini(init)] *)

Section Constructor.

Context {number : Type}.
Variable number_0_1 : number.
Variable number_1 : number.

Local Abbreviation Gemini_new' := (GeminiInit.Gemini_new number_0_1 number_1).

Lemma filled_get_default (w : World) :
  filled_by_get w -> filled_by_get (snd (get_default w)).
Proof.
  intros Hw. unfold get_default. simpl.
  apply filled_get; [by apply filled_alloc|].
  unfold allocated. simpl. rewrite length_app. simpl. lia.
Qed.

(** [get()] in a store filled by [get] alone: the new options object has
    the empty session id, which no entry has, so the lookup misses. *)
Lemma get_default_filled (w : World) :
  filled_by_get w ->
  get_default w
  = let w0 := snd (alloc_options {| backend := GOOGLE; apiKey := None |} w) in
    let o := length (options_heap w) in
    match GeminiSession_new o w0 with
    | (Ok s, w') => (Ok s, push {| session := s; options := o |} w')
    | (Throw m, w') => (Throw m, w')
    end.
Proof.
  intros Hw. unfold get_default. simpl.
  set (w0 := snd (alloc_options {| backend := GOOGLE; apiKey := None |} w)).
  set (o := length (options_heap w)).
  assert (deref w0 o = {| backend := GOOGLE; apiKey := None |}) as Hd.
  { unfold deref, w0, o. simpl. by rewrite list_lookup_total_middle. }
  assert (filled_by_get w0) as Hw0 by (by apply filled_alloc).
  assert (get o w0 = match GeminiSession_new o w0 with
                     | (Ok s, w') => (Ok s, push {| session := s; options := o |} w')
                     | (Throw m, w') => (Throw m, w')
                     end) as Hm.
  { rewrite get_miss; [rewrite Hd; reflexivity|].
    unfold id_at at 2. rewrite Hd.
    exact (filled_by_get_no_empty_id w0 Hw0). }
  exact Hm.
Qed.

(** X6: [new Gemini(init)] in a store filled by [get] alone. With a session
    in [init] the constructor returns an object with that session and
    touches nothing. Without one it asks the store with new options
    [{ backend: GOOGLE }], and the store never answers from its entries:
    with a non-empty GOOGLE_API_KEY a new session is built with that key and
    appended to the store, and with no key the constructor throws and the
    store is as before. The model defaults to GEMINI_PRO. *)
Theorem Gemini_new_in_filled_store (init : option GeminiInit.GeminiConfig)
    (w : World) :
  filled_by_get w ->
  (forall s, GeminiInit.field_of init GeminiInit.init_session = Some s ->
     exists g, Gemini_new' init w = (Ok g, w) /\ GeminiInit.session g = s)
  /\ (GeminiInit.field_of init GeminiInit.init_session = None ->
       forall k, GOOGLE_API_KEY w = Some k -> k <> "" ->
       exists g w',
         Gemini_new' init w = (Ok g, w')
         /\ GeminiInit.session g = length (session_heap w)
         /\ session_heap w'
            = (session_heap w ++ [GeminiSessionObject {| client_apiKey := k |}])%list
         /\ sessions w'
            = (sessions w ++ [ {| session := length (session_heap w);
                                  options := length (options_heap w) |} ])%list
         /\ filled_by_get w')
  /\ (GeminiInit.field_of init GeminiInit.init_session = None ->
       falsy (GOOGLE_API_KEY w) = true ->
       exists w',
         Gemini_new' init w = (Throw no_key_message, w')
         /\ sessions w' = sessions w
         /\ session_heap w' = session_heap w
         /\ filled_by_get w')
  /\ (forall g w', Gemini_new' init w = (Ok g, w') ->
        GeminiInit.model g
        = GeminiInit.field_or init GeminiInit.init_model GEMINI_PRO
        /\ (init = None -> GeminiInit.model g = GEMINI_PRO
                           /\ GeminiInit.temperature g = number_0_1
                           /\ GeminiInit.topP g = number_1
                           /\ GeminiInit.maxTokens g = None)).
Proof.
  intros Hw.
  set (w0 := snd (alloc_options {| backend := GOOGLE; apiKey := None |} w)).
  set (o := length (options_heap w)).
  assert (deref w0 o = {| backend := GOOGLE; apiKey := None |}) as Hd.
  { unfold deref, w0, o. simpl. by rewrite list_lookup_total_middle. }
  assert (allocated w0 o) as Ho.
  { unfold allocated, w0, o. simpl. rewrite length_app. simpl. lia. }
  assert (falsy (apiKey (deref w0 o)) = true) as Hf by (by rewrite Hd).
  pose proof (filled_get_default w Hw) as Hfilled.
  pose proof (get_default_filled w Hw) as Hget. cbv zeta in Hget.
  fold w0 o in Hget.
  split; [intros s Hs; unfold GeminiInit.Gemini_new; rewrite Hs; eauto|].
  split; [|split].
  - intros Hnone k Henv Hne. unfold GeminiInit.Gemini_new. rewrite Hnone.
    rewrite Hget in Hfilled |- *.
    rewrite (GeminiSession_new_from_env w0 o k Ho Hf Henv Hne) in Hfilled |- *.
    do 2 eexists. split; [reflexivity|]. simpl. done.
  - intros Hnone Henv. unfold GeminiInit.Gemini_new. rewrite Hnone.
    rewrite Hget in Hfilled |- *.
    rewrite (GeminiSession_new_no_key w0 o Ho Hf Henv) in Hfilled |- *.
    eexists. split; [reflexivity|]. simpl. done.
  - intros g w' Hnew. unfold GeminiInit.Gemini_new in Hnew.
    destruct (GeminiInit.field_of init GeminiInit.init_session).
    + injection Hnew as <- <-. simpl. split; [done|]. by intros ->.
    + destruct (get_default w) as [[s|m] w1]; [|discriminate].
      injection Hnew as <- <-. simpl. split; [done|]. by intros ->.
Qed.

End Constructor.

Lemma Gemini_new_in_filled_store_witness :
  exists g w',
    GeminiInit.Gemini_new "0.1" "1" None two_env_lookups = (Ok g, w')
    /\ GeminiInit.session g = 2
    /\ length (sessions w') = 3.
Proof.
  destruct (Gemini_new_in_filled_store "0.1" "1" None two_env_lookups
              two_env_lookups_filled) as (_ & Hnew & _).
  destruct (Hnew eq_refl "K" eq_refl) as (g & w' & Hg & Hs & _ & Hst & _);
    [discriminate|].
  exists g, w'. split; [exact Hg|]. split; [exact Hs|].
  rewrite Hst. reflexivity.
Defined.

End SessionMore.

(** * Further properties of the translation *)

Module ChatMore.
Import Js Models Chat ChatSpec.

Section Translation.

Context {Args Part Content SafetySetting FunctionDeclaration BaseTool
         GeminiMessageRole MessageType ChatMessage number : Type}.

Variable uuid : nat -> string.
Variable DEFAULT_SAFETY_SETTINGS : list SafetySetting.
Variable mapBaseToolToGeminiFunctionDeclaration : BaseTool -> FunctionDeclaration.
Variable ROLES_FROM_GEMINI : GeminiMessageRole -> MessageType.
Variable getChatContext :
  @ChatParams BaseTool ChatMessage -> result (@ChatContext Part Content).

Local Abbreviation Response :=
  (@EnhancedGenerateContentResponse Args GeminiMessageRole).
Local Abbreviation GeminiLLM :=
  (@Gemini Args Part Content SafetySetting FunctionDeclaration
           GeminiMessageRole number).
Local Abbreviation Chunk := (@ResponseChunk Args GeminiMessageRole).
Local Abbreviation StreamResult :=
  (@GoogleStreamGenerateContentResult Args GeminiMessageRole).
Local Abbreviation NonStreamResponse :=
  (@GeminiChatNonStreamResponse Args GeminiMessageRole MessageType).
Local Abbreviation Params := (@ChatParams BaseTool ChatMessage).
Local Abbreviation getTools := (GeminiSession_getToolsFromResponse uuid).
Local Abbreviation getStream := (GeminiSession_getChatStream uuid).
Local Abbreviation nonStream :=
  (nonStreamChat (MessageType := MessageType) DEFAULT_SAFETY_SETTINGS
     mapBaseToolToGeminiFunctionDeclaration ROLES_FROM_GEMINI getChatContext).

(** X7: the parameters of [startChat]. They exist exactly when the chat
    context does, carry its history and the default safety settings, and
    have a tools field only for a non-empty tools list of the caller; the
    field is then one tool whose function declarations are the caller's
    tools, mapped one by one in their order. *)
Theorem createStartChatParams_tools_only_if_given (params : Params) :
  (forall m, getChatContext params = Throw m -> createStartChatParams DEFAULT_SAFETY_SETTINGS
       mapBaseToolToGeminiFunctionDeclaration getChatContext params = Throw m)
  /\ (forall context,
        getChatContext params = Ok context ->
        exists start,
          createStartChatParams DEFAULT_SAFETY_SETTINGS
       mapBaseToolToGeminiFunctionDeclaration getChatContext params = Ok start
          /\ history start = ctx_history context
          /\ safetySettings start = DEFAULT_SAFETY_SETTINGS
          /\ (tools params = None \/ tools params = Some [] ->
                start_tools start = None)
          /\ (forall ts, tools params = Some ts -> ts <> [] ->
                exists declarations,
                  start_tools start
                  = Some [ {| functionDeclarations := declarations |} ]
                  /\ length declarations = length ts
                  /\ forall i tool, ts !! i = Some tool ->
                       declarations !! i
                       = Some (mapBaseToolToGeminiFunctionDeclaration tool))).
Proof.
  unfold createStartChatParams. split.
  - intros m ->. reflexivity.
  - intros context ->.
    destruct (tools params) as [[|tool rest]|]; eexists;
      (split; [reflexivity|]); simpl;
      (split; [reflexivity|]); (split; [reflexivity|]).
    + split; [done | intros ts [= <-] Hne; done].
    + split; [intros [[=]|[=]]|]. intros ts [= <-] _.
      eexists. split; [reflexivity|]. split; [simpl; by rewrite length_map|].
      intros i t Hi. change (map mapBaseToolToGeminiFunctionDeclaration (tool :: rest) !! i
                             = Some (mapBaseToolToGeminiFunctionDeclaration t)).
      by rewrite list_lookup_fmap, Hi.
    + split; [done | intros ts [=]].
Qed.

(** *** Tool-call ids *)

Lemma NoDup_map_injective {A B} (f : A -> B) (l : list A) :
  (forall x y, f x = f y -> x = y) -> NoDup l -> NoDup (map f l).
Proof.
  intros Hinj. induction 1 as [|x l Hx _ IH]; simpl; constructor; [|done].
  intros Hin. apply list_elem_of_In, in_map_iff in Hin as (y & Hy & Hin).
  apply Hinj in Hy as ->. by apply Hx, list_elem_of_In.
Qed.

Lemma ids_of_tool_calls (calls : list (@FunctionCall Args)) (n : nat) :
  map id (imap (tool_of_call uuid n) calls) = map uuid (seq n (length calls)).
Proof.
  revert n. induction calls as [|call rest IH]; intros n; [done|].
  rewrite imap_tool_of_call_cons. simpl. by rewrite IH.
Qed.

(** The tool calls of an extraction, none for [undefined]. *)
Definition tools_list (tools : option (list (@ToolCall Args))) : list ToolCall :=
  match tools with Some ts => ts | None => [] end.

Lemma getTools_ids (r : Response) (n n' : nat) tools :
  getTools r n = (Ok tools, n') ->
  n' = n + length (tools_list tools)
  /\ map id (tools_list tools) = map uuid (seq n (length (tools_list tools))).
Proof.
  rewrite getToolsFromResponse_cases.
  destruct (functionCalls r) as [[calls|]|m]; intros [= <- <-]; simpl.
  - rewrite length_imap. split; [done | apply ids_of_tool_calls].
  - split; [lia | done].
Qed.

Lemma getTools_counter (r : Response) (n : nat) : n <= snd (getTools r n).
Proof.
  rewrite getToolsFromResponse_cases.
  destruct (functionCalls r) as [[calls|]|m]; simpl; lia.
Qed.

(** X8: [getToolsFromResponse] calls [randomUUID] once for every function
    call, in order, and not at all when [functionCalls()] throws or returns
    undefined; so the ids of the tool calls of one response are pairwise
    distinct whenever [randomUUID] never repeats a value. *)
Theorem tool_call_ids_drawn_in_order (r : Response) (n : nat) :
  (forall tools n',
      getTools r n = (Ok tools, n') ->
      n' = n + length (tools_list tools)
      /\ map id (tools_list tools) = map uuid (seq n (length (tools_list tools)))
      /\ ((forall i j, uuid i = uuid j -> i = j) ->
            NoDup (map id (tools_list tools))))
  /\ (forall m n', getTools r n = (Throw m, n') -> n' = n)
  /\ (functionCalls r = Ok None -> snd (getTools r n) = n).
Proof.
  split; [|split].
  - intros tools n' Hget.
    destruct (getTools_ids r n n' tools Hget) as [Hn Hids].
    split; [done|]. split; [done|].
    intros Hinj. rewrite Hids.
    apply NoDup_map_injective; [done | apply NoDup_seq].
  - rewrite getToolsFromResponse_cases.
    destruct (functionCalls r) as [[calls|]|m0]; intros m n' [=]; done.
  - rewrite getToolsFromResponse_cases. by intros ->.
Qed.

(** The ids of the tool calls a chunk carries. *)
Definition chunk_ids (c : Chunk) : list string :=
  map id (tools_list (toolCall (chunk_options c))).

(** The ids of the tool calls of all chunks of a stream, in order. *)
Definition stream_ids (g : Generated Chunk) : list string :=
  concat (map chunk_ids (yielded g)).

Lemma options_of_tools_list (tools : option (list (@ToolCall Args))) :
  tools_list (toolCall (options_of_tools tools)) = tools_list tools.
Proof. by destruct tools as [[|t ts]|]. Qed.

Lemma chat_chunk_ids (r : Response) (n n' : nat) (c : Chunk) :
  chat_chunk uuid r n = (Ok c, n') ->
  n' = n + length (chunk_ids c)
  /\ chunk_ids c = map uuid (seq n (length (chunk_ids c))).
Proof.
  intros Hc. apply chat_chunk_ok in Hc as (_ & _ & tools & Htools & Hopts).
  unfold chunk_ids. rewrite Hopts, options_of_tools_list, !length_map.
  exact (getTools_ids r n n' tools Htools).
Qed.

Lemma chat_chunk_counter (r : Response) (n : nat) :
  n <= snd (chat_chunk uuid r n).
Proof.
  unfold chat_chunk, bind at 1. pose proof (getTools_counter r n) as Hn.
  destruct (getTools r n) as [[tools|m] n1]; simpl in *; [|done].
  unfold bind, GeminiSession_getResponseText, lift, ret.
  by destruct (text r).
Qed.

Lemma chat_stream_ids (items : list Response) (ending : option string) (n : nat) :
  let g := fst (streamConverter items ending (chat_chunk uuid) n) in
  let n' := snd (streamConverter items ending (chat_chunk uuid) n) in
  concat (map chunk_ids (yielded g))
  = map uuid (seq n (length (concat (map chunk_ids (yielded g)))))
  /\ n + length (concat (map chunk_ids (yielded g))) <= n'.
Proof.
  revert n. induction items as [|r rest IH]; intros n; simpl; [split; [done|lia]|].
  pose proof (chat_chunk_counter r n) as Hmono.
  destruct (chat_chunk uuid r n) as [[c|m] n1] eqn:Hc; simpl in *;
    [|split; [done | lia]].
  destruct (chat_chunk_ids r n n1 c Hc) as [Hn1 Hids].
  specialize (IH n1). simpl in IH.
  destruct (streamConverter rest ending (chat_chunk uuid) n1) as [g n2].
  simpl in *. destruct IH as [IHids IHle].
  rewrite length_app. split; [|lia].
  rewrite seq_app, map_app, <- Hids, <- Hn1. by rewrite <- IHids.
Qed.

(** X9: over a whole chat stream the tool-call ids are the results of
    consecutive calls of [randomUUID], in the order of the chunks; so no id
    occurs twice in a stream, within a chunk or across chunks, whenever
    [randomUUID] never repeats a value. *)
Theorem chat_stream_ids_distinct (result : StreamResult) (n : nat) :
  stream_ids (fst (getStream result n))
  = map uuid (seq n (length (stream_ids (fst (getStream result n)))))
  /\ n + length (stream_ids (fst (getStream result n)))
     <= snd (getStream result n)
  /\ ((forall i j, uuid i = uuid j -> i = j) ->
        NoDup (stream_ids (fst (getStream result n)))).
Proof.
  unfold GeminiSession_getChatStream, stream_ids.
  destruct (chat_stream_ids (yielded (stream result)) (thrown (stream result)) n)
    as [Hids Hle].
  split; [done|]. split; [done|].
  intros Hinj. rewrite Hids.
  apply NoDup_map_injective; [done | apply NoDup_seq].
Qed.

(** *** Failures *)

(** X10: how [nonStreamChat] fails. An error of the chat context or of the
    vendor's [sendMessage] is passed on before any tool-call id is drawn. A
    response without candidates makes it throw a TypeError: at once when
    [candidates] is undefined, and after the tool calls and the text were
    extracted when it is an empty array. So it returns only for a response
    with at least one candidate. *)
Theorem nonStreamChat_needs_a_candidate (this : GeminiLLM) (params : Params)
    (n : nat) :
  (forall m, getChatContext params = Throw m ->
     nonStream this params n = (Throw m, n))
  /\ (forall context md start,
        getChatContext params = Ok context ->
        metadata this = Ok md ->
        createStartChatParams DEFAULT_SAFETY_SETTINGS
       mapBaseToolToGeminiFunctionDeclaration getChatContext params = Ok start ->
        let chat := startChat (getGenerativeModel (session this) md) start in
        (forall m, sendMessage chat (ctx_message context) = Throw m ->
           nonStream this params n = (Throw m, n))
        /\ (forall result,
              sendMessage chat (ctx_message context) = Ok result ->
              (candidates (response result) = None ->
                 nonStream this params n = (Throw type_error, n))
              /\ (candidates (response result) = Some [] ->
                   forall tools n1 txt n2,
                     getToolsFromResponse (session this) (response result) n
                     = (Ok tools, n1) ->
                     getResponseText (session this) (response result) n1
                     = (Ok txt, n2) ->
                     nonStream this params n = (Throw type_error, n2))
              /\ (is_ok (fst (nonStream this params n)) = true ->
                   exists top rest,
                     candidates (response result) = Some (top :: rest))))
  /\ (is_ok (fst (nonStream this params n)) = true ->
       is_ok (getChatContext params) = true).
Proof.
  split; [intros m Hm; unfold nonStreamChat, bind, lift; by rewrite Hm|].
  split.
  - intros context md start Hctx Hmd Hstart chat.
    split.
    { intros m Hm. unfold nonStreamChat, bind, lift.
      rewrite Hctx, Hmd, Hstart. fold chat. by rewrite Hm. }
    intros result Hsend. split; [|split].
    + intros Hc. unfold nonStreamChat, bind, lift, throw.
      rewrite Hctx, Hmd, Hstart. fold chat. by rewrite Hsend, Hc.
    + intros Hc tools n1 txt n2 Htools Htext.
      unfold nonStreamChat, bind, lift, throw, ret.
      rewrite Hctx, Hmd, Hstart. fold chat.
      by rewrite Hsend, Hc, Htools, Htext.
    + intros Hok.
      destruct (nonStream this params n) as [[r|m] n'] eqn:Hr; [|discriminate].
      apply nonStreamChat_ok in Hr
        as (context' & md' & start' & result' & top & rest & tools & n1
            & Hctx' & Hmd' & Hstart' & Hsend' & Hcands & _).
      rewrite Hctx in Hctx'. injection Hctx' as <-.
      rewrite Hmd in Hmd'. injection Hmd' as <-.
      rewrite Hstart in Hstart'. injection Hstart' as <-.
      fold chat in Hsend'. rewrite Hsend in Hsend'. injection Hsend' as <-.
      eauto.
  - intros Hok.
    destruct (nonStream this params n) as [[r|m] n'] eqn:Hr; [|discriminate].
    apply nonStreamChat_ok in Hr as (context' & ? & ? & ? & ? & ? & ? & ? & -> & _).
    reflexivity.
Qed.

(** A stream stops at the first element the converter throws on. *)
Lemma streamConverter_stops {S D} (pre : list S) (r : S) (post : list S)
    (ending : option string) (converter : S -> M D) (m : string) (n : nat) :
  Forall (fun data => forall k, is_ok (fst (converter data k)) = true) pre ->
  (forall k, fst (converter r k) = Throw m) ->
  let g := fst (streamConverter (pre ++ r :: post) ending converter n) in
  length (yielded g) = length pre /\ thrown g = Some m.
Proof.
  intros Hpre Hr. revert n.
  induction Hpre as [|data pre Hd _ IH]; intros n; simpl.
  - specialize (Hr n). destruct (converter r n) as [[d|m'] n1]; simpl in *;
      [discriminate | by injection Hr as ->].
  - specialize (Hd n).
    destruct (converter data n) as [[d|m'] n1]; [|discriminate Hd].
    destruct (IH n1) as [Hlen Hend].
    destruct (streamConverter (pre ++ r :: post) ending converter n1) as [g n2].
    simpl in *. split; [by rewrite Hlen | done].
Qed.

Lemma chat_chunk_throws (r : Response) (m : string) (k : nat) :
  functionCalls r = Throw m
    \/ (is_ok (functionCalls r) = true /\ text r = Throw m) ->
  fst (chat_chunk uuid r k) = Throw m.
Proof.
  unfold chat_chunk, bind at 1. rewrite getToolsFromResponse_cases.
  intros [Hc | [Hc Ht]].
  - by rewrite Hc.
  - destruct (functionCalls r) as [[calls|]|]; [| |discriminate Hc];
      unfold bind, GeminiSession_getResponseText, lift; by rewrite Ht.
Qed.

(** X11: the chat stream ends at the first response whose [functionCalls()]
    or [text()] throws, with that exception: the chunks of the responses
    before it were yielded, one for each, and no later response is
    converted. *)
Theorem chat_stream_stops_at_first_failure (result : StreamResult)
    (pre : list Response) (r : Response) (post : list Response)
    (m : string) (n : nat) :
  yielded (stream result) = (pre ++ r :: post)%list ->
  Forall (fun r' : Response =>
            is_ok (text r') = true /\ is_ok (functionCalls r') = true) pre ->
  functionCalls r = Throw m
    \/ (is_ok (functionCalls r) = true /\ text r = Throw m) ->
  length (yielded (fst (getStream result n))) = length pre
  /\ thrown (fst (getStream result n)) = Some m
  /\ Forall2 (fun (r' : Response) (c : Chunk) =>
                chunk_raw c = r' /\ text r' = Ok (delta c))
             pre (yielded (fst (getStream result n))).
Proof.
  intros Hitems Hpre Hr. unfold GeminiSession_getChatStream. rewrite Hitems.
  set (conv := chat_chunk uuid).
  assert (Hstop : length (yielded (fst (streamConverter (pre ++ r :: post)
                     (thrown (stream result)) conv n))) = length pre
                  /\ thrown (fst (streamConverter (pre ++ r :: post)
                     (thrown (stream result)) conv n)) = Some m).
  { apply streamConverter_stops.
    - eapply Forall_impl; [exact Hpre|].
      intros r' [Ht Hc] k. by apply chat_chunk_returns.
    - intros k. by apply chat_chunk_throws. }
  destruct Hstop as [Hlen Hend]. split; [done|]. split; [done|].
  pose proof (streamConverter_prefix
                (fun (r' : Response) (c : Chunk) =>
                   chunk_raw c = r' /\ text r' = Ok (delta c))
                (pre ++ r :: post) (thrown (stream result)) conv n) as Hpref.
  cbv zeta in Hpref. rewrite Hlen, take_app_length in Hpref.
  apply Hpref. intros data j c j' Hc.
  apply chat_chunk_ok in Hc as (Hraw & Htext & _). done.
Qed.

(** *** Metadata *)

(** X14: the model-info map has exactly one entry for every model, so the
    [metadata] getter returns for every [Gemini] object; it hands on the
    model, temperature, topP and maxTokens of the object, and the context
    window of the entry of the model, which lies between 12288 and
    2000000 tokens. *)
Theorem metadata_of_every_model (this : GeminiLLM) :
  NoDup (map fst GEMINI_MODEL_INFO_MAP)
  /\ In (model this) (map fst GEMINI_MODEL_INFO_MAP)
  /\ exists md,
       metadata this = Ok md
       /\ md_model md = model this
       /\ md_temperature md = temperature this
       /\ md_topP md = topP this
       /\ md_maxTokens md = maxTokens this
       /\ In (model this, {| contextWindow := md_contextWindow md |})
             GEMINI_MODEL_INFO_MAP
       /\ (12288 <= md_contextWindow md <= 2000000)%N.
Proof.
  split; [apply (bool_decide_unpack _); vm_compute; reflexivity|].
  split; [destruct (model this); simpl; tauto|].
  unfold metadata.
  destruct (model this); simpl; eexists; (split; [reflexivity|]); simpl;
    (repeat split; [tauto | lia | lia]).
Qed.

End Translation.

(** *** Runs *)

(** A response that was blocked: both accessors throw. *)
Definition blocked_response : @EnhancedGenerateContentResponse string string :=
  {| text := Throw "blocked";
     functionCalls := Throw "blocked";
     candidates := Some [ {| content_role := "model" |} ] |}.

(** A response without candidates. *)
Definition no_candidates_response : @EnhancedGenerateContentResponse string string :=
  {| text := Ok "";
     functionCalls := Ok None;
     candidates := None |}.

(** A response with two function calls. *)
Definition two_tools_response : @EnhancedGenerateContentResponse string string :=
  {| text := Ok "";
     functionCalls := Ok (Some [ {| call_name := "search"; call_args := "{q: 1}" |};
                                 {| call_name := "fetch"; call_args := "{u: 2}" |} ]);
     candidates := Some [ {| content_role := "model" |} ] |}.

Definition sample_stream
    (responses : list (@EnhancedGenerateContentResponse string string))
    : @GoogleStreamGenerateContentResult string string :=
  {| stream := {| yielded := responses; thrown := None |} |}.

Lemma createStartChatParams_tools_only_if_given_witness :
  exists start,
    createStartChatParams (SafetySetting := unit) [] (fun tool : string => tool)
      sample_context
      {| messages := ["Hi"]; stream_flag := None; tools := Some ["a"; "b"] |}
    = Ok start
    /\ history start = []
    /\ exists declarations,
         start_tools start = Some [ {| functionDeclarations := declarations |} ]
         /\ length declarations = 2.
Proof.
  destruct (proj2 (createStartChatParams_tools_only_if_given
                     (SafetySetting := unit) [] (fun tool : string => tool)
                     sample_context
                     {| messages := ["Hi"]; stream_flag := None;
                        tools := Some ["a"; "b"] |})
                  _ eq_refl)
    as (start & Hstart & Hhistory & _ & _ & Htools).
  exists start. split; [exact Hstart|]. split; [exact Hhistory|].
  destruct (Htools ["a"; "b"] eq_refl) as (declarations & Hd & Hlen & _);
    [discriminate|].
  exists declarations. split; [exact Hd | exact Hlen].
Defined.

Lemma tool_call_ids_drawn_in_order_witness :
  exists tools,
    GeminiSession_getToolsFromResponse sample_uuid two_tools_response 0
    = (Ok tools, 2)
    /\ map id (tools_list tools) = ["uuid-0"; "uuid-1"].
Proof.
  eexists. split; [reflexivity|].
  exact (proj1 (proj2 (proj1 (tool_call_ids_drawn_in_order sample_uuid
                                two_tools_response 0) _ 2 eq_refl))).
Defined.

Lemma chat_stream_ids_distinct_witness :
  stream_ids (fst (GeminiSession_getChatStream sample_uuid
                     (sample_stream [tool_response; text_response; tool_response]) 0))
  = map sample_uuid
      (seq 0 (length (stream_ids (fst (GeminiSession_getChatStream sample_uuid
                     (sample_stream [tool_response; text_response; tool_response]) 0))))).
Proof.
  exact (proj1 (chat_stream_ids_distinct sample_uuid
                  (sample_stream [tool_response; text_response; tool_response]) 0)).
Defined.

Example chat_stream_ids_run :
  stream_ids (fst (GeminiSession_getChatStream sample_uuid
                     (sample_stream [tool_response; text_response; tool_response]) 0))
  = ["uuid-0"; "uuid-1"].
Proof. reflexivity. Qed.

Lemma nonStreamChat_needs_a_candidate_witness :
  sample_nonStreamChat (sample_gemini no_candidates_response []) (sample_params None) 0
  = (Throw type_error, 0).
Proof.
  exact (proj1 (proj2 (proj1 (proj2
           (nonStreamChat_needs_a_candidate [] (fun tool : string => tool)
              sample_roles sample_context
              (sample_gemini no_candidates_response []) (sample_params None) 0))
           _ _ _ eq_refl eq_refl eq_refl) _ eq_refl) eq_refl).
Defined.

Lemma chat_stream_stops_at_first_failure_witness :
  length (yielded (fst (GeminiSession_getChatStream sample_uuid
            (sample_stream [text_response; blocked_response; tool_response]) 0)))
  = 1
  /\ thrown (fst (GeminiSession_getChatStream sample_uuid
            (sample_stream [text_response; blocked_response; tool_response]) 0))
     = Some "blocked".
Proof.
  destruct (chat_stream_stops_at_first_failure sample_uuid
              (sample_stream [text_response; blocked_response; tool_response])
              [text_response] blocked_response [tool_response] "blocked" 0
              eq_refl
              ltac:(repeat constructor)
              (or_introl eq_refl))
    as (Hlen & Hend & _).
  split; [exact Hlen | exact Hend].
Defined.

End ChatMore.

(** * Properties of completions *)

Module CompletionSpec.
Import Js Models Chat ChatSpec Completion.

Section Complete.

Context {Args Part Content SafetySetting FunctionDeclaration GeminiMessageRole
         number MessageContent : Type}.

Variable messageContentToGeminiParts : MessageContent -> list Part.
Variable getPartsText : list Part -> string.
Variable generateContent :
  @GoogleGenerativeModel Args Part Content SafetySetting FunctionDeclaration
                         GeminiMessageRole
  -> string -> result (@GenerateContentResult Args GeminiMessageRole).
Variable generateContentStream :
  @GoogleGenerativeModel Args Part Content SafetySetting FunctionDeclaration
                         GeminiMessageRole
  -> string -> result (@GoogleStreamGenerateContentResult Args GeminiMessageRole).
Variable getCompletionStream :
  @IGeminiSession Args Part Content SafetySetting FunctionDeclaration
                  GeminiMessageRole number
  -> @GoogleStreamGenerateContentResult Args GeminiMessageRole
  -> nat -> Generated (@CompletionResponse Args GeminiMessageRole) * nat.

Local Abbreviation Response :=
  (@EnhancedGenerateContentResponse Args GeminiMessageRole).
Local Abbreviation StreamResult :=
  (@GoogleStreamGenerateContentResult Args GeminiMessageRole).
Local Abbreviation CompletionItem := (@CompletionResponse Args GeminiMessageRole).
Local Abbreviation GeminiLLM :=
  (@Gemini Args Part Content SafetySetting FunctionDeclaration
           GeminiMessageRole number).
Local Abbreviation completing :=
  (complete messageContentToGeminiParts getPartsText generateContent
            generateContentStream getCompletionStream).
Local Abbreviation completionStream :=
  (@GeminiSession_getCompletionStream Args GeminiMessageRole).

(** A converter that draws no UUID leaves the counter where it was. *)
Lemma streamConverter_counter {S D} (items : list S) (ending : option string)
    (converter : S -> M D) (n : nat) :
  (forall data k, snd (converter data k) = k) ->
  snd (streamConverter items ending converter n) = n.
Proof.
  intros Hconv. revert n. induction items as [|data rest IH]; intros n; simpl; [done|].
  specialize (Hconv data n).
  destruct (converter data n) as [[d|m] n1]; simpl in *; subst n1; [|done].
  specialize (IH n).
  by destruct (streamConverter rest ending converter n) as [g n2].
Qed.

Lemma completion_chunk_cases (r : Response) (k : nat) :
  completion_chunk r k
  = match text r with
    | Ok t => (Ok {| completion_text := t; completion_raw := r |}, k)
    | Throw m => (Throw m, k)
    end.
Proof.
  unfold completion_chunk, bind, GeminiSession_getResponseText, lift, ret.
  by destruct (text r).
Qed.

Lemma completionStream_counter (result : StreamResult) (n : nat) :
  snd (completionStream result n) = n.
Proof.
  unfold GeminiSession_getCompletionStream.
  apply streamConverter_counter. intros r k.
  rewrite completion_chunk_cases. by destruct (text r).
Qed.

(** X12: the completion stream of a [GeminiSession] has a completion for
    every response of the vendor's stream up to the first one whose
    [text()] throws, each with the text and the raw response; it ends with
    that exception, or as the vendor's stream ends when every [text()]
    returns. Function calls play no part: [functionCalls()] is never asked
    and no UUID is drawn. *)
Theorem completion_stream_follows_text (result : StreamResult) (n : nat) :
  snd (completionStream result n) = n
  /\ Forall2 (fun (r : Response) (c : CompletionItem) =>
                completion_raw c = r /\ text r = Ok (completion_text c))
             (take (length (yielded (fst (completionStream result n))))
                   (yielded (stream result)))
             (yielded (fst (completionStream result n)))
  /\ (Forall (fun r : Response => is_ok (text r) = true)
             (yielded (stream result)) ->
       length (yielded (fst (completionStream result n)))
       = length (yielded (stream result))
       /\ thrown (fst (completionStream result n)) = thrown (stream result))
  /\ (forall pre r post m,
        yielded (stream result) = (pre ++ r :: post)%list ->
        Forall (fun r' : Response => is_ok (text r') = true) pre ->
        text r = Throw m ->
        length (yielded (fst (completionStream result n))) = length pre
        /\ thrown (fst (completionStream result n)) = Some m).
Proof.
  split; [apply completionStream_counter|].
  unfold GeminiSession_getCompletionStream.
  split.
  { apply (streamConverter_prefix
             (fun (r : Response) (c : CompletionItem) =>
                completion_raw c = r /\ text r = Ok (completion_text c))).
    intros r k c k'. rewrite completion_chunk_cases.
    destruct (text r); [intros [= <- <-]; done | discriminate]. }
  split.
  - intros Hall. apply streamConverter_total.
    eapply Forall_impl; [exact Hall|].
    intros r Hr k. rewrite completion_chunk_cases.
    simpl in Hr. destruct (text r); [done | discriminate Hr].
  - intros pre r post m -> Hpre Hr.
    apply ChatMore.streamConverter_stops.
    + eapply Forall_impl; [exact Hpre|].
      intros r' Hr' k. rewrite completion_chunk_cases.
      simpl in Hr'. destruct (text r'); [done | discriminate Hr'].
    + intros k. by rewrite completion_chunk_cases, Hr.
Qed.

(** X13: [complete] asks the vendor client of the session once, with the
    text of the parts of the prompt: [generateContentStream] when the stream
    flag is set and [generateContent] otherwise, and passes a rejection on.
    With the flag set it resolves to the completion stream the session makes
    of the result; otherwise to the text the session extracts from the
    response together with the raw response, or to what the extraction
    throws. With the methods of a [GeminiSession] it never draws a UUID. *)
Theorem complete_dispatches_on_stream (this : GeminiLLM)
    (params : @CompletionParams MessageContent) (n : nat) :
  exists md,
    metadata this = Ok md
    /\ (completion_stream params = Some true ->
         (forall m,
            generateContentStream (getGenerativeModel (session this) md)
              (getPartsText (messageContentToGeminiParts (prompt params)))
            = Throw m ->
            completing this params n = (Throw m, n))
         /\ (forall result,
               generateContentStream (getGenerativeModel (session this) md)
                 (getPartsText (messageContentToGeminiParts (prompt params)))
               = Ok result ->
               completing this params n
               = (Ok (CompletionStream
                        (fst (getCompletionStream (session this) result n))),
                  snd (getCompletionStream (session this) result n))))
    /\ (completion_stream params = Some false \/ completion_stream params = None ->
         (forall m,
            generateContent (getGenerativeModel (session this) md)
              (getPartsText (messageContentToGeminiParts (prompt params)))
            = Throw m ->
            completing this params n = (Throw m, n))
         /\ (forall result,
               generateContent (getGenerativeModel (session this) md)
                 (getPartsText (messageContentToGeminiParts (prompt params)))
               = Ok result ->
               completing this params n
               = match getResponseText (session this) (response result) n with
                 | (Ok t, n') =>
                     (Ok (Completion {| completion_text := t;
                                        completion_raw := response result |}), n')
                 | (Throw m, n') => (Throw m, n')
                 end))
    /\ (getResponseText (session this) = GeminiSession_getResponseText ->
         getCompletionStream (session this) = completionStream ->
         snd (completing this params n) = n).
Proof.
  pose proof (metadata_returns this) as Hmd.
  destruct (metadata this) as [md|] eqn:Hm; [|discriminate].
  exists md. split; [done|]. split; [|split].
  - intros Hs. split.
    + intros m Hg. unfold complete, bind, lift. by rewrite Hm, Hs, Hg.
    + intros result Hg. unfold complete, bind, lift. rewrite Hm, Hs, Hg. simpl.
      by destruct (getCompletionStream (session this) result n).
  - intros Hs. split.
    + intros m Hg. unfold complete, bind, lift.
      rewrite Hm. destruct Hs as [-> | ->]; simpl; by rewrite Hg.
    + intros result Hg. unfold complete, bind, lift, ret.
      rewrite Hm. destruct Hs as [-> | ->]; simpl; rewrite Hg;
        by destruct (getResponseText (session this) (response result) n)
          as [[t|m] n'].
  - intros Htext Hstream. unfold complete, bind, lift, ret. rewrite Hm.
    destruct (truthy (completion_stream params)).
    + destruct (generateContentStream _ _) as [result|m]; [|done].
      rewrite Hstream. pose proof (completionStream_counter result n) as Hn.
      by destruct (completionStream result n).
    + destruct (generateContent _ _) as [result|m]; [|done].
      rewrite Htext. unfold GeminiSession_getResponseText, lift.
      by destruct (text (response result)).
Qed.

End Complete.

End CompletionSpec.

(** * Further properties of the context-aware agent *)

Module ContextAwareMore.
Import Js ContextAware ContextAwareSpec.

Lemma join_cons_cons (sep x y : string) (rest : list string) :
  join sep (x :: y :: rest) = x ++ sep ++ join sep (y :: rest).
Proof. reflexivity. Qed.

Lemma string_app_assoc (a b c : string) : (a ++ b) ++ c = a ++ (b ++ c).
Proof.
  induction a as [|ch a IH]; [done|].
  change (String ch ((a ++ b) ++ c) = String ch (a ++ (b ++ c))).
  by rewrite IH.
Qed.

Lemma string_app_nil_r (a : string) : a ++ "" = a.
Proof.
  induction a as [|ch a IH]; [done|].
  change (String ch (a ++ "") = String ch a). by rewrite IH.
Qed.

Lemma join_app (sep : string) (xs ys : list string) :
  xs <> [] -> ys <> [] ->
  join sep (xs ++ ys)%list = join sep xs ++ sep ++ join sep ys.
Proof.
  intros Hxs Hys. induction xs as [|x [|x' xs] IH]; [done| |].
  - destruct ys as [|y ys]; [done|]. reflexivity.
  - change (join sep (x :: (x' :: xs ++ ys)%list)
            = join sep (x :: x' :: xs) ++ sep ++ join sep ys).
    rewrite !join_cons_cons.
    change (x' :: (xs ++ ys)%list) with ((x' :: xs) ++ ys)%list.
    rewrite IH by done. by rewrite !string_app_assoc.
Qed.

Section Agent.

Context {Detail MessageOptions BaseNode MetadataMode Params Response Base : Type}.

Variable NONE : MetadataMode.
Variable getContent : BaseNode -> MetadataMode -> string.
Variable message : Params -> MessageContent Detail.

Local Abbreviation Agent :=
  (@ContextAwareAgent Detail MessageOptions BaseNode Base).
Local Abbreviation context := (context_of NONE getContent).

(** X15: the context is the contents of the retrieved nodes in their order,
    separated by single line feeds: empty for no node, the content itself
    for one node, and for two non-empty batches of nodes the two contexts
    with a line feed between them. [retrieveContext] returns it when the
    retriever returns, and throws what the retriever throws. *)
Theorem retrieveContext_joins_contents (this : Agent) (query : MessageContent Detail) :
  context [] = ""
  /\ (forall n, context [n] = getContent (node n) NONE)
  /\ (forall xs ys, xs <> [] -> ys <> [] ->
        context (xs ++ ys)%list = context xs ++ newline ++ context ys)
  /\ (forall nodes, retrieve (contextRetriever this) query = Ok nodes ->
        retrieveContext NONE getContent this query = Ok (context nodes))
  /\ (forall m, retrieve (contextRetriever this) query = Throw m ->
        retrieveContext NONE getContent this query = Throw m).
Proof.
  split; [reflexivity|]. split; [reflexivity|]. split.
  - intros xs ys Hxs Hys. unfold context_of. rewrite map_app.
    apply join_app; by destruct xs, ys.
  - split; intros ? Hr; unfold retrieveContext; by rewrite Hr.
Qed.

(** References that are allocated read the same in both heaps when the
    partial lookups agree. *)
Lemma lookup_total_same (h h' : list (@ChatMessage Detail MessageOptions)) (r : ref) :
  h' !! r = h !! r -> h' !!! r = h !!! r.
Proof.
  intros H. rewrite (list_lookup_total_alt h'), (list_lookup_total_alt h).
  f_equal. exact H.
Qed.

Lemma injectContext_system_first (c : string) (this : Agent) (r : ref) :
  well_formed this -> first_system this r ->
  first_system (injectContext c this) r.
Proof.
  intros Hwf Hfirst.
  destruct (injectContext_system c this r Hwf Hfirst) as (Hh & _ & Hmsg & Hother).
  cbv zeta in *.
  destruct Hfirst as (pre & post & Hhist & Hpre & Hr).
  exists pre, post. rewrite Hh. split; [done|]. split; [|by rewrite Hmsg].
  eapply Forall_impl; [exact Hpre|]. intros r' Hr'. simpl in Hr'.
  assert (r' <> r) as Hne by (intros ->; done).
  by rewrite (lookup_total_same _ _ r' (Hother r' Hne)).
Qed.

(** X16: what [injectContext] keeps and establishes. The history keeps
    referring to allocated messages and grows by at most one entry;
    no allocated message changes its role; and afterwards the history has a
    system message, the first of which starts with the injected context. *)
Theorem injectContext_establishes_system_message (c : string) (this : Agent) :
  well_formed this ->
  well_formed (injectContext c this)
  /\ length (chatHistory this) <= length (chatHistory (injectContext c this))
     <= S (length (chatHistory this))
  /\ (forall r : ref, r < length (heap this) ->
        role (heap (injectContext c this) !!! r) = role (heap this !!! r))
  /\ exists (r : ref) rest,
       first_system (injectContext c this) r
       /\ content (heap (injectContext c this) !!! r) = Text (c ++ rest).
Proof.
  intros Hwf. destruct (system_cases this) as [[r Hfirst] | Hno].
  - destruct (injectContext_system c this r Hwf Hfirst) as (Hh & Hlen & Hmsg & Hother).
    cbv zeta in *. split; [|split; [|split]].
    + unfold well_formed in *. by rewrite Hh, Hlen.
    + rewrite Hh. lia.
    + intros r' Hr'. destruct (decide (r' = r)) as [->|Hne].
      * rewrite Hmsg. simpl. by destruct Hfirst as (_ & _ & _ & _ & ->).
      * by rewrite (lookup_total_same _ _ r' (Hother r' Hne)).
    + exists r. eexists. split; [by apply injectContext_system_first|].
      rewrite Hmsg. reflexivity.
  - destruct (injectContext_no_system c this Hno) as (Hh & Hheap).
    cbv zeta in *. split; [|split; [|split]].
    + unfold well_formed in *. rewrite Hh, Hheap, length_app. simpl.
      constructor; [lia|]. eapply Forall_impl; [exact Hwf|]. simpl. lia.
    + rewrite Hh. simpl. lia.
    + intros r Hr. rewrite Hheap. by rewrite lookup_total_app_l.
    + exists (length (heap this)), "".
      assert (heap (injectContext c this) !!! (length (heap this) : ref)
              = {| role := "system"; content := Text c; options := None |}) as Hnew
        by (rewrite Hheap; apply list_lookup_total_middle; done).
      split.
      * exists [], (chatHistory this). rewrite Hh, Hnew.
        split; [done|]. split; [constructor | done].
      * rewrite Hnew. simpl. by rewrite string_app_nil_r.
Qed.




Variable super_chat : Params -> Agent -> result Response * Agent.

(** X18: when the retriever throws, [chat] throws the same, the wrapped
    agent is not called and the agent (its history and messages) is as
    before. Whether the stream flag of the parameters is set makes no
    difference to what [chat] does before it delegates. *)
Theorem chat_retriever_failure_leaves_agent (params : Params) (this : Agent)
    (flag flag' : Params -> bool) :
  (forall m,
      retrieve (contextRetriever this) (message params) = Throw m ->
      chat NONE getContent message flag super_chat params this = (Throw m, this))
  /\ chat NONE getContent message flag super_chat params this
     = chat NONE getContent message flag' super_chat params this
  /\ (is_ok (fst (chat NONE getContent message flag super_chat params this)) = true ->
       is_ok (retrieve (contextRetriever this) (message params)) = true).
Proof.
  unfold chat, retrieveContext. split; [intros m ->; done|]. split.
  - destruct (retrieve _ _); [|done]. by destruct (flag params), (flag' params).
  - by destruct (retrieve _ _).
Qed.

End Agent.

(** *** Runs *)


Lemma sample_agent_no_system_well_formed : well_formed sample_agent_no_system.
Proof. repeat constructor; simpl; lia. Qed.

Lemma injectContext_establishes_system_message_witness :
  well_formed (injectContext "ctx" sample_agent_no_system)
  /\ length (chatHistory sample_agent_no_system)
     <= length (chatHistory (injectContext "ctx" sample_agent_no_system))
     <= S (length (chatHistory sample_agent_no_system)).
Proof.
  destruct (injectContext_establishes_system_message "ctx" sample_agent_no_system
              sample_agent_no_system_well_formed) as (Hwf & Hlen & _).
  split; [exact Hwf | exact Hlen].
Defined.


End ContextAwareMore.

(** * Further properties of the index store *)

Module IndexStoreMore.
Import IndexStore.

(** The character of the string ["."]. *)
Definition dot : Ascii.ascii := Ascii.ascii_of_nat 46.

(** The string holds no dot. *)
Fixpoint dot_free (s : string) : Prop :=
  match s with
  | EmptyString => True
  | String ch rest => ch <> dot /\ dot_free rest
  end.

Lemma append_cons (ch : Ascii.ascii) (a b : string) :
  String ch a ++ b = String ch (a ++ b).
Proof. reflexivity. Qed.

Lemma append_nil_l (b : string) : "" ++ b = b.
Proof. reflexivity. Qed.

Lemma dot_append (c : string) : "." ++ c = String dot c.
Proof. reflexivity. Qed.

(** A name without a dot is recovered from [name.rest]. *)
Lemma dotted_split (a b c d : string) :
  dot_free a -> dot_free b ->
  a ++ "." ++ c = b ++ "." ++ d -> a = b /\ c = d.
Proof.
  rewrite !dot_append.
  revert b. induction a as [|ch a IH]; intros [|ch' b] Ha Hb.
  - rewrite !append_nil_l. intros [= ->]. done.
  - rewrite append_nil_l, !append_cons. intros [= <- _].
    destruct Hb as [Hb _]. by destruct Hb.
  - rewrite append_nil_l, !append_cons. intros [= -> _].
    destruct Ha as [Ha _]. by destruct Ha.
  - rewrite !append_cons. intros [= <- Heq].
    destruct Ha as [_ Ha], Hb as [_ Hb].
    destruct (IH b Ha Hb Heq) as [-> ->]. done.
Qed.

(** X19: for database names without a dot the namespace of a store tells
    the database name and the collection name apart: two stores built by
    either factory with the same namespace were built with the same two
    names. The default database name has no dot. *)
Theorem namespace_determines_names (client client' : MongoClient) (cs : string)
    (db db' coll coll' : string) :
  dot_free db -> dot_free db' ->
  (namespace (fromMongoClient client (Some db) (Some coll))
   = namespace (fromMongoClient client' (Some db') (Some coll')) ->
   db = db' /\ coll = coll')
  /\ (namespace (fromConnectionString cs (Some db) (Some coll))
      = namespace (fromMongoClient client' (Some db') (Some coll')) ->
      db = db' /\ coll = coll')
  /\ dot_free DEFAULT_DATABASE.
Proof.
  intros Hdb Hdb'. unfold fromMongoClient, fromConnectionString; simpl.
  split; [intros [= H]; by apply (dotted_split db db' coll coll')|].
  split; [intros [= H]; by apply (dotted_split db db' coll coll')|].
  vm_compute. repeat split; discriminate.
Qed.

Lemma namespace_determines_names_witness :
  (namespace (fromMongoClient {| url := "u"; appName := None |}
                (Some "db") (Some "a.b"))
   = namespace (fromMongoClient {| url := "u"; appName := None |}
                  (Some "db") (Some "a.b")) ->
   "db" = "db" /\ "a.b" = "a.b")
  /\ dot_free "IndexStoreDB".
Proof.
  destruct (namespace_determines_names {| url := "u"; appName := None |}
              {| url := "u"; appName := None |} "u" "db" "db" "a.b" "a.b")
    as (H & _ & Hd).
  - vm_compute. repeat split; discriminate.
  - vm_compute. repeat split; discriminate.
  - split; [exact H | exact Hd].
Defined.

Lemma append_not_self (a b : string) : b <> "" -> a ++ b <> a.
Proof.
  intros Hb Heq. induction a as [|ch a IH].
  - by rewrite append_nil_l in Heq.
  - rewrite append_cons in Heq. injection Heq as Heq. by apply IH.
Qed.

Lemma append_assoc3 (a b c : string) : (a ++ b) ++ c = a ++ (b ++ c).
Proof.
  induction a as [|ch a IH]; [done|].
  rewrite !append_cons. by rewrite IH.
Qed.

(** X20: a dot in the database name makes namespaces collide: the stores
    for database [a.b] with collection [c] and for database [a] with
    collection [b.c] have the same namespace, though their key-value stores
    are configured with different database and collection names. *)
Theorem namespace_collides_on_dotted_names (client : MongoClient) (a b c : string) :
  namespace (fromMongoClient client (Some (a ++ "." ++ b)) (Some c))
  = namespace (fromMongoClient client (Some a) (Some (b ++ "." ++ c)))
  /\ namespace (fromMongoClient client (Some (a ++ "." ++ b)) (Some c))
     = Some (a ++ "." ++ b ++ "." ++ c)
  /\ dbName (azureCosmosVCoreKVStore
               (fromMongoClient client (Some (a ++ "." ++ b)) (Some c)))
     <> dbName (azureCosmosVCoreKVStore
                  (fromMongoClient client (Some a) (Some (b ++ "." ++ c)))).
Proof.
  unfold fromMongoClient; simpl.
  assert ((a ++ "." ++ b) ++ "." ++ c = a ++ "." ++ b ++ "." ++ c) as Heq.
  { rewrite append_assoc3. reflexivity. }
  split; [by rewrite Heq|]. split; [by rewrite Heq|].
  apply append_not_self. rewrite dot_append. discriminate.
Qed.

End IndexStoreMore.
